(** * cryptocurrency_tracker: the selection store, its persistence and rendering

    A shallow embedding of [script.js].  The page keeps two module-level
    variables, [selectedCoins] and [userPrefs], mirrors them into
    [localStorage] as JSON text, fetches a page of coins and rebuilds two DOM
    regions from the answer.

    JavaScript strings are modelled as sequences of 8-bit code units
    ([string]); the values that [JSON.parse] builds are the inductive type
    [value].  The two statements that copy the loaded preferences into the
    checkbox and the dropdown change neither variable; of them the model
    keeps the conversion of the sort order to a string, which can fail.  The
    listeners take what they read from these widgets as an argument. *)

From Stdlib Require Import Ascii String ZArith.
From Stdlib Require Import DecimalString DecimalFacts DecimalPos.
From stdpp Require Import gmap strings list.

Open Scope Z_scope.

(** ** Outcomes of a computation *)

(** The exceptions the script can raise. *)
Inductive exn := SyntaxError | TypeError.

(** [Ok] is normal completion, [Throw] a JavaScript exception.  [Unsupported]
    marks an input that leaves the fragment of JavaScript embedded here (a
    number that is no small integer, a code unit above 255, ...): the model
    says nothing about it. *)
Inductive outcome (A : Type) :=
| Ok (a : A)
| Throw (e : exn)
| Unsupported.
Arguments Ok {A} a.
Arguments Throw {A} e.
Arguments Unsupported {A}.

Definition obind {A B} (m : outcome A) (k : A → outcome B) : outcome B :=
  match m with
  | Ok a => k a
  | Throw e => Throw e
  | Unsupported => Unsupported
  end.

Definition omap {A B} (f : A → B) (m : outcome A) : outcome B :=
  obind m (λ a, Ok (f a)).

(** ** JSON values and the host's JSON object *)

Module JSON.

(** The values [JSON.parse] can return.  An object keeps its properties in
    creation order, which is the order [JSON.stringify] prints them in. *)
#[warnings="-register-all"]
Inductive value :=
| Null
| Bool (b : bool)
| Num (n : Z)
| Str (s : string)
| Arr (elems : list value)
| Obj (props : list (string * value)).

(** Induction on values, with the hypothesis for every element of an array
    and every property of an object. *)
Section value_induction.
Variable P : value → Prop.
Hypothesis P_Null : P Null.
Hypothesis P_Bool : ∀ b, P (Bool b).
Hypothesis P_Num : ∀ n, P (Num n).
Hypothesis P_Str : ∀ s, P (Str s).
Hypothesis P_Arr : ∀ l, Forall P l → P (Arr l).
Hypothesis P_Obj : ∀ o, Forall (λ kv, P (snd kv)) o → P (Obj o).

Fixpoint value_nested_ind (v : value) : P v :=
  match v with
  | Null => P_Null
  | Bool b => P_Bool b
  | Num n => P_Num n
  | Str s => P_Str s
  | Arr l =>
      P_Arr l
        ((fix elements (l : list value) : Forall P l :=
            match l with
            | [] => @List.Forall_nil _ P
            | x :: r =>
                @List.Forall_cons _ P x r (value_nested_ind x) (elements r)
            end) l)
  | Obj o =>
      P_Obj o
        ((fix properties (o : list (string * value))
            : Forall (λ kv, P (snd kv)) o :=
            match o with
            | [] => @List.Forall_nil _ _
            | kv :: r =>
                @List.Forall_cons _ _ kv r (value_nested_ind (snd kv))
                  (properties r)
            end) o)
  end.
End value_induction.

(** Characters that a Rocq literal cannot spell. *)
Definition dquote : ascii := ascii_of_nat 34.
Definition backslash : ascii := ascii_of_nat 92.
Definition chr (n : nat) : string := String (ascii_of_nat n) EmptyString.

(** [ToBoolean]. *)
Definition ToBoolean (v : value) : bool :=
  match v with
  | Null => false
  | Bool b => b
  | Num n => negb (n =? 0)
  | Str s => negb (String.eqb s "")
  | Arr _ | Obj _ => true
  end.

(** Property read [o.k] on a parsed object; [None] is [undefined]. *)
Fixpoint get_prop (k : string) (o : list (string * value)) : option value :=
  match o with
  | [] => None
  | (k', v) :: o' => if String.eqb k' k then Some v else get_prop k o'
  end.

(** Property write [o.k = v]: an existing property keeps its place, a new one
    is created last. *)
Fixpoint set_prop (k : string) (v : value) (o : list (string * value))
  : list (string * value) :=
  match o with
  | [] => [(k, v)]
  | (k', v') :: o' =>
      if String.eqb k' k then (k, v) :: o' else (k', v') :: set_prop k v o'
  end.

(** [ToString], as a template literal applies it.  An array prints its
    elements joined by commas, [null] as the empty text; an object prints as
    [[object Object]] unless an own property hides [Object.prototype.toString],
    in which case no primitive can be had and a TypeError is raised. *)
Definition Z_to_string (n : Z) : string := NilZero.string_of_int (Z.to_int n).

Fixpoint ToString (v : value) : outcome string :=
  match v with
  | Null => Ok "null"
  | Bool true => Ok "true"
  | Bool false => Ok "false"
  | Num n => Ok (Z_to_string n)
  | Str s => Ok s
  | Arr l =>
      (fix join (l : list value) : outcome string :=
         match l with
         | [] => Ok ""
         | x :: r =>
             obind (match x with Null => Ok "" | _ => ToString x end) (λ s,
               match r with
               | [] => Ok s
               | _ :: _ => omap (λ t, s +:+ "," +:+ t) (join r)
               end)
         end) l
  | Obj o =>
      match get_prop "toString" o with
      | Some _ => Throw TypeError
      | None => Ok "[object Object]"
      end
  end.

(** [Array.prototype.join]: [null] prints as the empty text. *)
Fixpoint join (sep : string) (l : list value) : outcome string :=
  match l with
  | [] => Ok ""
  | x :: r =>
      obind (match x with Null => Ok "" | _ => ToString x end) (λ s,
        match r with
        | [] => Ok s
        | _ :: _ => omap (λ t, s +:+ sep +:+ t) (join sep r)
        end)
  end.

(** *** JSON.stringify *)

Definition hex_digit (n : nat) : ascii :=
  ascii_of_nat (if (n <? 10)%nat then 48 + n else 87 + n)%nat.

(** One code unit inside a quoted string (QuoteJSONString). *)
Definition escape_char (c : ascii) : string :=
  let n := nat_of_ascii c in
  if (n =? 8)%nat then String backslash "b"
  else if (n =? 9)%nat then String backslash "t"
  else if (n =? 10)%nat then String backslash "n"
  else if (n =? 12)%nat then String backslash "f"
  else if (n =? 13)%nat then String backslash "r"
  else if (n =? 34)%nat then String backslash (String dquote "")
  else if (n =? 92)%nat then String backslash (String backslash "")
  else if (n <? 32)%nat then
    String backslash
      (String "u" (String "0" (String "0"
        (String (hex_digit (n / 16)) (String (hex_digit (n mod 16)) "")))))
  else String c "".

Fixpoint escape (s : string) : string :=
  match s with
  | EmptyString => ""
  | String c r => escape_char c +:+ escape r
  end.

Definition quote (s : string) : string :=
  String dquote (escape s +:+ String dquote "").

Fixpoint stringify (v : value) : string :=
  match v with
  | Null => "null"
  | Bool true => "true"
  | Bool false => "false"
  | Num n => Z_to_string n
  | Str s => quote s
  | Arr l => "[" +:+ String.concat "," (map stringify l) +:+ "]"
  | Obj o =>
      "{" +:+
      String.concat "," (map (λ kv, quote (fst kv) +:+ ":" +:+ stringify (snd kv)) o)
      +:+ "}"
  end.

(** *** JSON.parse *)

Definition is_ws (c : ascii) : bool :=
  let n := nat_of_ascii c in
  ((n =? 32) || (n =? 9) || (n =? 10) || (n =? 13))%nat.

Fixpoint skip_ws (s : string) : string :=
  match s with
  | String c r => if is_ws c then skip_ws r else s
  | EmptyString => s
  end.

Definition is_digit (c : ascii) : bool :=
  let n := nat_of_ascii c in ((48 <=? n) && (n <=? 57))%nat.

Definition hex_value (c : ascii) : option nat :=
  let n := nat_of_ascii c in
  if ((48 <=? n) && (n <=? 57))%nat then Some (n - 48)%nat
  else if ((97 <=? n) && (n <=? 102))%nat then Some (n - 87)%nat
  else if ((65 <=? n) && (n <=? 70))%nat then Some (n - 55)%nat
  else None.

(** The code unit a one-letter escape stands for. *)
Definition unescape (e : ascii) : option ascii :=
  let n := nat_of_ascii e in
  if (n =? 34)%nat then Some dquote
  else if (n =? 92)%nat then Some backslash
  else if (n =? 47)%nat then Some "/"%char
  else if (n =? 98)%nat then Some (ascii_of_nat 8)
  else if (n =? 102)%nat then Some (ascii_of_nat 12)
  else if (n =? 110)%nat then Some (ascii_of_nat 10)
  else if (n =? 114)%nat then Some (ascii_of_nat 13)
  else if (n =? 116)%nat then Some (ascii_of_nat 9)
  else None.

Definition hex4 (a b c d : ascii) : option nat :=
  match hex_value a, hex_value b, hex_value c, hex_value d with
  | Some x, Some y, Some z, Some w => Some (((x * 16 + y) * 16 + z) * 16 + w)%nat
  | _, _, _, _ => None
  end.

(** The characters of a string literal after its opening quote, up to and
    including the closing one; returns the string and the rest of the text. *)
Fixpoint parse_string (s : string) : outcome (string * string) :=
  match s with
  | EmptyString => Throw SyntaxError
  | String c r =>
      if Ascii.eqb c dquote then Ok (EmptyString, r)
      else if Ascii.eqb c backslash then
        match r with
        | EmptyString => Throw SyntaxError
        | String e r' =>
            match unescape e with
            | Some c' => omap (λ p, (String c' (fst p), snd p)) (parse_string r')
            | None =>
                if Ascii.eqb e "u" then
                  match r' with
                  | String h1 (String h2 (String h3 (String h4 r''))) =>
                      match hex4 h1 h2 h3 h4 with
                      | Some n =>
                          if (n <? 256)%nat then
                            omap (λ p, (String (ascii_of_nat n) (fst p), snd p))
                                 (parse_string r'')
                          else Unsupported
                      | None => Throw SyntaxError
                      end
                  | _ => Throw SyntaxError
                  end
                else Throw SyntaxError
            end
        end
      else if (nat_of_ascii c <? 32)%nat then Throw SyntaxError
      else omap (λ p, (String c (fst p), snd p)) (parse_string r)
  end.

(** The digits at the head of [s], read in base ten onto [acc]. *)
Fixpoint parse_digits (acc : Z) (s : string) : Z * string :=
  match s with
  | String c r =>
      if is_digit c then parse_digits (acc * 10 + Z.of_nat (nat_of_ascii c - 48)) r
      else (acc, s)
  | EmptyString => (acc, s)
  end.

Definition starts_fraction_or_exponent (s : string) : bool :=
  match s with
  | String c _ => Ascii.eqb c "." || Ascii.eqb c "e" || Ascii.eqb c "E"
  | EmptyString => false
  end.

(** A number literal.  Only integers of magnitude at most 2^53 are embedded
    (they are the doubles whose text is their decimal expansion); a fraction,
    an exponent, a larger magnitude and the negative zero are [Unsupported]. *)
Definition parse_number (s : string) : outcome (value * string) :=
  let '(neg, s1) :=
    match s with
    | String c r => if Ascii.eqb c "-" then (true, r) else (false, s)
    | EmptyString => (false, s)
    end in
  match s1 with
  | EmptyString => Throw SyntaxError
  | String d r =>
      if negb (is_digit d) then Throw SyntaxError
      else
        let '(n, rest) :=
          if Ascii.eqb d "0" then (0, r) else parse_digits 0 s1 in
        if starts_fraction_or_exponent rest then Unsupported
        else if 2 ^ 53 <? n then Unsupported
        else if neg && (n =? 0) then Unsupported
        else Ok (Num (if neg then - n else n), rest)
  end.

(** [strip_prefix p s] is the rest of [s] after [p], when [s] starts with [p]. *)
Fixpoint strip_prefix (p s : string) : option string :=
  match p, s with
  | EmptyString, _ => Some s
  | String a p', String b s' => if Ascii.eqb a b then strip_prefix p' s' else None
  | String _ _, EmptyString => None
  end.

Definition parse_literal (word : string) (v : value) (s : string)
  : outcome (value * string) :=
  match strip_prefix word s with
  | Some rest => Ok (v, rest)
  | None => Throw SyntaxError
  end.

(** Keys made of digits only are array indices to the engine, which lists
    them before the other keys; objects with such keys are not embedded. *)
Fixpoint all_digits (s : string) : bool :=
  match s with
  | EmptyString => true
  | String c r => is_digit c && all_digits r
  end.

Definition index_like (k : string) : bool :=
  negb (String.eqb k "") && all_digits k.

(** [after c s]: the text that follows [c], when [c] is the first character
    of [s] that is not white space. *)
Definition after (c : ascii) (s : string) : option string :=
  match skip_ws s with
  | String c' r => if Ascii.eqb c' c then Some r else None
  | EmptyString => None
  end.

(** The recursive-descent parser.  [fuel] bounds the nesting of calls; the
    text is consumed from the left and the unread rest is returned. *)
Fixpoint parse_value (fuel : nat) (s : string) : outcome (value * string) :=
  match fuel with
  | O => Unsupported
  | S fuel' =>
      match skip_ws s with
      | EmptyString => Throw SyntaxError
      | String c r =>
          if Ascii.eqb c "[" then
            match after "]" r with
            | Some r' => Ok (Arr [], r')
            | None => parse_elements fuel' r []
            end
          else if Ascii.eqb c "{" then
            match after "}" r with
            | Some r' => Ok (Obj [], r')
            | None => parse_members fuel' r []
            end
          else if Ascii.eqb c dquote then
            omap (λ p, (Str (fst p), snd p)) (parse_string r)
          else if Ascii.eqb c "t" then parse_literal "rue" (Bool true) r
          else if Ascii.eqb c "f" then parse_literal "alse" (Bool false) r
          else if Ascii.eqb c "n" then parse_literal "ull" Null r
          else if Ascii.eqb c "-" || is_digit c then parse_number (String c r)
          else Throw SyntaxError
      end
  end
with parse_elements (fuel : nat) (s : string) (acc : list value)
  : outcome (value * string) :=
  match fuel with
  | O => Unsupported
  | S fuel' =>
      obind (parse_value fuel' s) (λ p,
        match after "," (snd p) with
        | Some r => parse_elements fuel' r (acc ++ [fst p])
        | None =>
            match after "]" (snd p) with
            | Some r => Ok (Arr (acc ++ [fst p]), r)
            | None => Throw SyntaxError
            end
        end)
  end
with parse_members (fuel : nat) (s : string) (acc : list (string * value))
  : outcome (value * string) :=
  match fuel with
  | O => Unsupported
  | S fuel' =>
      match after dquote s with
      | None => Throw SyntaxError
      | Some r =>
          obind (parse_string r) (λ kr,
            if index_like (fst kr) then Unsupported
            else
              match after ":" (snd kr) with
              | None => Throw SyntaxError
              | Some r2 =>
                  obind (parse_value fuel' r2) (λ p,
                    match after "," (snd p) with
                    | Some r4 =>
                        parse_members fuel' r4 (set_prop (fst kr) (fst p) acc)
                    | None =>
                        match after "}" (snd p) with
                        | Some r4 =>
                            Ok (Obj (set_prop (fst kr) (fst p) acc), r4)
                        | None => Throw SyntaxError
                        end
                    end)
              end)
      end
  end.

(** The value of a text: one value, then nothing but white space. *)
Definition read (text : string) : outcome value :=
  obind (parse_value (2 * String.length text + 2) text) (λ p,
    match skip_ws (snd p) with
    | EmptyString => Ok (fst p)
    | String _ _ => Throw SyntaxError
    end).

(** *** Well-formed texts *)

(** The scanner follows the grammar of JSON texts and builds no value: it
    accepts every well-formed text, also one whose value is not embedded
    here, and answers with a SyntaxError on every other text.  It returns the
    text that follows what it has read. *)
Fixpoint scan_string (s : string) : outcome string :=
  match s with
  | EmptyString => Throw SyntaxError
  | String c r =>
      if Ascii.eqb c dquote then Ok r
      else if Ascii.eqb c backslash then
        match r with
        | EmptyString => Throw SyntaxError
        | String e r' =>
            match unescape e with
            | Some _ => scan_string r'
            | None =>
                if Ascii.eqb e "u" then
                  match r' with
                  | String h1 (String h2 (String h3 (String h4 r''))) =>
                      match hex4 h1 h2 h3 h4 with
                      | Some _ => scan_string r''
                      | None => Throw SyntaxError
                      end
                  | _ => Throw SyntaxError
                  end
                else Throw SyntaxError
            end
        end
      else if (nat_of_ascii c <? 32)%nat then Throw SyntaxError
      else scan_string r
  end.

Fixpoint skip_digits (s : string) : string :=
  match s with
  | String c r => if is_digit c then skip_digits r else s
  | EmptyString => s
  end.

(** One digit at least. *)
Definition scan_digits (s : string) : option string :=
  match s with
  | String c r => if is_digit c then Some (skip_digits r) else None
  | EmptyString => None
  end.

(** The fraction of a number, if there is one: a point and digits. *)
Definition scan_fraction (s : string) : option string :=
  match s with
  | String c r => if Ascii.eqb c "." then scan_digits r else Some s
  | EmptyString => Some s
  end.

(** The exponent of a number, if there is one: [e] or [E], a sign or none,
    and digits. *)
Definition scan_exponent (s : string) : option string :=
  match s with
  | String c r =>
      if Ascii.eqb c "e" || Ascii.eqb c "E" then
        match r with
        | String sign r' =>
            if Ascii.eqb sign "+" || Ascii.eqb sign "-" then scan_digits r'
            else scan_digits r
        | EmptyString => None
        end
      else Some s
  | EmptyString => Some s
  end.

(** A number: a minus sign or none, then [0] or digits that do not start with
    [0], then a fraction or none, then an exponent or none. *)
Definition scan_number (s : string) : outcome string :=
  let s1 :=
    match s with
    | String c r => if Ascii.eqb c "-" then r else s
    | EmptyString => s
    end in
  match s1 with
  | EmptyString => Throw SyntaxError
  | String d r =>
      if negb (is_digit d) then Throw SyntaxError
      else
        match scan_fraction (if Ascii.eqb d "0" then r else skip_digits r) with
        | None => Throw SyntaxError
        | Some s2 =>
            match scan_exponent s2 with
            | None => Throw SyntaxError
            | Some s3 => Ok s3
            end
        end
  end.

Definition scan_literal (word s : string) : outcome string :=
  match strip_prefix word s with
  | Some rest => Ok rest
  | None => Throw SyntaxError
  end.

Fixpoint scan_value (fuel : nat) (s : string) : outcome string :=
  match fuel with
  | O => Unsupported
  | S fuel' =>
      match skip_ws s with
      | EmptyString => Throw SyntaxError
      | String c r =>
          if Ascii.eqb c "[" then
            match after "]" r with
            | Some r' => Ok r'
            | None => scan_elements fuel' r
            end
          else if Ascii.eqb c "{" then
            match after "}" r with
            | Some r' => Ok r'
            | None => scan_members fuel' r
            end
          else if Ascii.eqb c dquote then scan_string r
          else if Ascii.eqb c "t" then scan_literal "rue" r
          else if Ascii.eqb c "f" then scan_literal "alse" r
          else if Ascii.eqb c "n" then scan_literal "ull" r
          else if Ascii.eqb c "-" || is_digit c then scan_number (String c r)
          else Throw SyntaxError
      end
  end
with scan_elements (fuel : nat) (s : string) : outcome string :=
  match fuel with
  | O => Unsupported
  | S fuel' =>
      obind (scan_value fuel' s) (λ r,
        match after "," r with
        | Some r' => scan_elements fuel' r'
        | None =>
            match after "]" r with
            | Some r' => Ok r'
            | None => Throw SyntaxError
            end
        end)
  end
with scan_members (fuel : nat) (s : string) : outcome string :=
  match fuel with
  | O => Unsupported
  | S fuel' =>
      match after dquote s with
      | None => Throw SyntaxError
      | Some r =>
          obind (scan_string r) (λ r1,
            match after ":" r1 with
            | None => Throw SyntaxError
            | Some r2 =>
                obind (scan_value fuel' r2) (λ r3,
                  match after "," r3 with
                  | Some r4 => scan_members fuel' r4
                  | None =>
                      match after "}" r3 with
                      | Some r4 => Ok r4
                      | None => Throw SyntaxError
                      end
                  end)
            end)
      end
  end.

(** A JSON text: one value between white space.  The fuel is more than the
    scanner can use on the text. *)
Definition scan (text : string) : outcome unit :=
  obind (scan_value (2 * String.length text + 2) text) (λ rest,
    match skip_ws rest with
    | EmptyString => Ok tt
    | String _ _ => Throw SyntaxError
    end).

Definition well_formed (text : string) : bool :=
  match scan text with
  | Ok _ => true
  | _ => false
  end.

(** [JSON.parse(text)]: a text that is not well-formed raises a SyntaxError,
    wherever it goes wrong; a well-formed one is read. *)
Definition parse (text : string) : outcome value :=
  match scan text with
  | Ok _ => read text
  | Throw e => Throw e
  | Unsupported => Unsupported
  end.

(** *** The scanner against the parser *)

(** The text agreed on: where the parser returns, the scanner returns the
    same rest; where the parser raises, the scanner raises the same. *)
Definition agree {A} (p : outcome (A * string)) (q : outcome string) : Prop :=
  match p with
  | Ok (_, r) => q = Ok r
  | Throw e => q = Throw e
  | Unsupported => True
  end.

(** What the scanner may answer on a text of [n] characters: the rest of the
    text, shorter than the text, or a SyntaxError; it does not run out of
    fuel. *)
Definition decided (q : outcome string) (n : nat) : Prop :=
  match q with
  | Ok r => (String.length r < n)%nat
  | Throw e => e = SyntaxError
  | Unsupported => False
  end.

(** *** The values that are read back *)

(** The integers that a double holds exactly and prints in full. *)
Definition safe_integer (n : Z) : bool := (- 2 ^ 53 <=? n) && (n <=? 2 ^ 53).

(** The values of the embedded fragment: integers in the safe range, and
    objects whose keys are distinct and none an array index.  These are the
    values [JSON.parse] returns here, and the script only adds strings and
    booleans to them. *)
Fixpoint supported (v : value) : bool :=
  match v with
  | Null | Bool _ | Str _ => true
  | Num n => safe_integer n
  | Arr l => forallb supported l
  | Obj o =>
      bool_decide (NoDup (map fst o))
      && forallb (λ kv, negb (index_like (fst kv)) && supported (snd kv)) o
  end.

(** The text of one property, as [stringify] writes it. *)
Definition member_text (kv : string * value) : string :=
  quote (fst kv) +:+ ":" +:+ stringify (snd kv).

(** The calls the parser nests to read a value back: the fuel it needs. *)
Fixpoint weight (v : value) : nat :=
  match v with
  | Arr l => S (sum_list_with (λ x, S (weight x)) l)
  | Obj o => S (sum_list_with (λ kv, S (weight (snd kv))) o)
  | _ => 1%nat
  end.

(** What may follow a value inside a text: nothing, a comma or a closing
    bracket. *)
Definition terminated (rest : string) : bool :=
  match rest with
  | EmptyString => true
  | String c _ => Ascii.eqb c "," || Ascii.eqb c "]" || Ascii.eqb c "}"
  end.

(** [v] is read back from its text, whatever terminated text follows. *)
Definition reads_back (v : value) : Prop :=
  ∀ fuel rest, (weight v ≤ fuel)%nat → terminated rest = true →
    parse_value fuel (stringify v +:+ rest) = Ok (v, rest).

End JSON.


Import JSON.

(** ** The page's state *)

(** A [div] the renderer builds: its class, the markup assigned to
    [innerHTML], and the coin id its click handler passes to [toggleCoin]
    (the selected cards have no handler of their own). *)
Record element := {
  className : string;
  innerHTML : string;
  onclick : option string;
}.

(** The module-level variables of the script together with the parts of the
    browser it acts on.  [alerts] lists the messages shown by [alert], and
    [requests] the URLs passed to [fetch], both oldest first. *)
Record state := {
  selectedCoins : list value;
  userPrefs : list (string * value);
  localStorage : gmap string string;
  alerts : list string;
  requests : list string;
  cryptoContainer : list element;
  selectedContainer : list element;
  compareBtn_disabled : bool;
}.

Definition with_selectedCoins (l : list value) (st : state) : state :=
  {| selectedCoins := l; userPrefs := userPrefs st;
     localStorage := localStorage st; alerts := alerts st;
     requests := requests st; cryptoContainer := cryptoContainer st;
     selectedContainer := selectedContainer st;
     compareBtn_disabled := compareBtn_disabled st |}.

Definition with_userPrefs (p : list (string * value)) (st : state) : state :=
  {| selectedCoins := selectedCoins st; userPrefs := p;
     localStorage := localStorage st; alerts := alerts st;
     requests := requests st; cryptoContainer := cryptoContainer st;
     selectedContainer := selectedContainer st;
     compareBtn_disabled := compareBtn_disabled st |}.

Definition with_localStorage (ls : gmap string string) (st : state) : state :=
  {| selectedCoins := selectedCoins st; userPrefs := userPrefs st;
     localStorage := ls; alerts := alerts st;
     requests := requests st; cryptoContainer := cryptoContainer st;
     selectedContainer := selectedContainer st;
     compareBtn_disabled := compareBtn_disabled st |}.

Definition with_alerts (a : list string) (st : state) : state :=
  {| selectedCoins := selectedCoins st; userPrefs := userPrefs st;
     localStorage := localStorage st; alerts := a;
     requests := requests st; cryptoContainer := cryptoContainer st;
     selectedContainer := selectedContainer st;
     compareBtn_disabled := compareBtn_disabled st |}.

Definition with_requests (r : list string) (st : state) : state :=
  {| selectedCoins := selectedCoins st; userPrefs := userPrefs st;
     localStorage := localStorage st; alerts := alerts st;
     requests := r; cryptoContainer := cryptoContainer st;
     selectedContainer := selectedContainer st;
     compareBtn_disabled := compareBtn_disabled st |}.

Definition with_cryptoContainer (c : list element) (st : state) : state :=
  {| selectedCoins := selectedCoins st; userPrefs := userPrefs st;
     localStorage := localStorage st; alerts := alerts st;
     requests := requests st; cryptoContainer := c;
     selectedContainer := selectedContainer st;
     compareBtn_disabled := compareBtn_disabled st |}.

Definition with_selectedContainer (c : list element) (st : state) : state :=
  {| selectedCoins := selectedCoins st; userPrefs := userPrefs st;
     localStorage := localStorage st; alerts := alerts st;
     requests := requests st; cryptoContainer := cryptoContainer st;
     selectedContainer := c;
     compareBtn_disabled := compareBtn_disabled st |}.

Definition with_compareBtn_disabled (b : bool) (st : state) : state :=
  {| selectedCoins := selectedCoins st; userPrefs := userPrefs st;
     localStorage := localStorage st; alerts := alerts st;
     requests := requests st; cryptoContainer := cryptoContainer st;
     selectedContainer := selectedContainer st;
     compareBtn_disabled := b |}.

(** ** The monad of the script: state, with exceptions that keep the state *)

Definition M (A : Type) : Type := state → outcome A * state.

#[global] Instance M_ret : MRet M := λ A a st, (Ok a, st).

#[global] Instance M_bind : MBind M := λ A B k m st,
  match m st with
  | (Ok a, st') => k a st'
  | (Throw e, st') => (Throw e, st')
  | (Unsupported, st') => (Unsupported, st')
  end.

Definition get : M state := λ st, (Ok st, st).
Definition modify (f : state → state) : M unit := λ st, (Ok tt, f st).
Definition lift {A} (o : outcome A) : M A := λ st, (o, st).

(** Calling an async function without awaiting it: what it does before its
    first suspension happens now, and an exception in it rejects the promise
    it returns instead of reaching the caller. *)
Definition spawn (m : M unit) : M unit :=
  λ st,
    match m st with
    | (Unsupported, st') => (Unsupported, st')
    | (_, st') => (Ok tt, st')
    end.

(** ** The script *)

Definition API_ENDPOINT : string :=
  "https://api.coingecko.com/api/v3/coins/markets".

(** The record [userPrefs] falls back to. *)
Definition default_prefs : list (string * value) :=
  [("show24h", Bool false); ("sortOrder", Str "market_cap_desc")].

(** [JSON.parse(localStorage.getItem(key))]: [getItem] answers [null] for a
    key that is not stored, and [JSON.parse] reads its argument as text. *)
Definition parse_item (ls : gmap string string) (key : string) : outcome value :=
  match ls !! key with
  | Some text => JSON.parse text
  | None => JSON.parse "null"
  end.

(** The two [let] statements at the top of the script.  The operations below
    call array methods on [selectedCoins] and assign properties of
    [userPrefs]; a stored value that is truthy and no array (no object) is
    outside what is embedded. *)
Definition load (ls : gmap string string)
  : outcome (list value * list (string * value)) :=
  obind (parse_item ls "selectedCoins") (λ sc,
  obind (parse_item ls "userPrefs") (λ up,
  obind (if ToBoolean sc
         then match sc with Arr l => Ok l | _ => Unsupported end
         else Ok []) (λ sel,
  obind (if ToBoolean up
         then match up with Obj o => Ok o | _ => Unsupported end
         else Ok default_prefs) (λ prefs,
  Ok (sel, prefs))))).

Definition alert (msg : string) : M unit :=
  modify (λ st, with_alerts (alerts st ++ [msg]) st).

Definition fetch (url : string) : M unit :=
  modify (λ st, with_requests (requests st ++ [url]) st).

Definition setItem (key text : string) : M unit :=
  modify (λ st, with_localStorage (<[key := text]> (localStorage st)) st).

(** [updateLocal]. *)
Definition updateLocal : M unit :=
  st ← get;
  setItem "selectedCoins" (JSON.stringify (Arr (selectedCoins st)));;
  setItem "userPrefs" (JSON.stringify (Obj (userPrefs st))).

(** [`${userPrefs.sortOrder}`]: [undefined] prints as such. *)
Definition template_value (o : option value) : outcome string :=
  match o with
  | Some v => ToString v
  | None => Ok "undefined"
  end.

(** [loadData] up to its first [await]: the request is sent. *)
Definition loadData : M unit :=
  st ← get;
  order ← lift (template_value (get_prop "sortOrder" (userPrefs st)));
  fetch (API_ENDPOINT +:+ "?vs_currency=usd&order=" +:+ order
         +:+ "&per_page=50&page=1").

(** [c === id] for a string [id]. *)
Definition is_id (id : string) (c : value) : bool :=
  match c with
  | Str s => String.eqb s id
  | _ => false
  end.

(** [selectedCoins.includes(id)]. *)
Definition includes (id : string) (l : list value) : bool := existsb (is_id id) l.

(** [selectedCoins.filter(c => c !== id)]. *)
Definition without (id : string) (l : list value) : list value :=
  List.filter (λ c, negb (is_id id c)) l.

Definition capacity_notice : string := "You can only compare up to 5 coins.".

(** [toggleCoin]. *)
Definition toggleCoin (id : string) : M unit :=
  st ← get;
  (if includes id (selectedCoins st) then
     modify (with_selectedCoins (without id (selectedCoins st)))
   else if (length (selectedCoins st) <? 5)%nat then
     modify (with_selectedCoins (selectedCoins st ++ [Str id]))
   else
     alert capacity_notice);;
  updateLocal;;
  spawn loadData.

(** [removeCoin]. *)
Definition removeCoin (id : string) : M unit :=
  st ← get;
  modify (with_selectedCoins (without id (selectedCoins st)));;
  updateLocal;;
  spawn loadData.

(** The [change] listener of the checkbox; [checked] is what the listener
    reads from [show24hCheckbox.checked]. *)
Definition on_show24h_change (checked : bool) : M unit :=
  st ← get;
  modify (with_userPrefs (set_prop "show24h" (Bool checked) (userPrefs st)));;
  updateLocal;;
  spawn loadData.

(** The [change] listener of the dropdown; [chosen] is what the listener
    reads from [sortDropdown.value]. *)
Definition on_sort_change (chosen : string) : M unit :=
  st ← get;
  modify (with_userPrefs (set_prop "sortOrder" (Str chosen) (userPrefs st)));;
  updateLocal;;
  spawn loadData.

(** The [click] listener of the compare button. *)
Definition on_compare_click : M unit :=
  st ← get;
  ids ← lift (join ", " (selectedCoins st));
  alert ("Comparing: " +:+ ids).

(** The operations of the state store, as the user triggers them. *)
Inductive operation :=
| Toggle (id : string)
| Remove (id : string)
| SetShow24h (checked : bool)
| SetSortOrder (token : string).

Definition perform (o : operation) : M unit :=
  match o with
  | Toggle id => toggleCoin id
  | Remove id => removeCoin id
  | SetShow24h b => on_show24h_change b
  | SetSortOrder tok => on_sort_change tok
  end.

(** The state an operation leaves behind. *)
Definition exec (o : operation) (st : state) : state := snd (perform o st).

Definition exec_all (ops : list operation) (st : state) : state :=
  fold_left (λ s o, exec o s) ops st.


(** ** Rendering *)

(** What the page asks of the engine about numbers and letters: printing a
    number in a template, [Number.prototype.toFixed],
    [Number.prototype.toLocaleString] and [String.prototype.toUpperCase]. *)
Class Host := {
  number : Type;
  number_to_string : number → string;
  toFixed : number → nat → string;
  toLocaleString : number → string;
  toUpperCase : string → string;
}.

Section Rendering.
Context `{Host}.

(** Modelled from the spec: the Coin record of the market-data API, whose
    declaration is not part of the repository.  The 24h change may be absent
    or [null]; both are [None] here. *)
Record Coin := {
  id : string;
  name : string;
  symbol : string;
  current_price : number;
  price_change_percentage_24h : option number;
  market_cap : number;
}.

(** The same coin with another 24h change. *)
Definition with_change (change : option number) (coin : Coin) : Coin :=
  {| id := id coin; name := name coin; symbol := symbol coin;
     current_price := current_price coin;
     price_change_percentage_24h := change;
     market_cap := market_cap coin |}.

Definition nl : string := chr 10.

(** [userPrefs.show24h ? ... : ''] inside the templates: the 24h paragraph.
    Calling [toFixed] on an absent change raises a TypeError. *)
Definition truthy (o : option value) : bool :=
  match o with
  | Some v => ToBoolean v
  | None => false
  end.

Definition change_24h (prefs : list (string * value)) (coin : Coin)
  : outcome string :=
  if truthy (get_prop "show24h" prefs) then
    match price_change_percentage_24h coin with
    | Some change => Ok ("<p>24h Change: " +:+ toFixed change 2 +:+ "%</p>")
    | None => Throw TypeError
    end
  else Ok "".

(** The card of one coin in the full list. *)
Definition crypto_card (prefs : list (string * value)) (index : nat)
    (coin : Coin) : outcome element :=
  let head :=
    nl +:+ "      <h3>" +:+ name coin +:+ " (" +:+ toUpperCase (symbol coin)
    +:+ ")</h3>" +:+ nl +:+ "      <p>Price: $"
    +:+ number_to_string (current_price coin) +:+ "</p>" +:+ nl +:+ "      " in
  obind (change_24h prefs coin) (λ change,
    Ok {| className :=
            "crypto-card row-" +:+ Z_to_string (Z.of_nat (index mod 3));
          innerHTML :=
            head +:+ change +:+ nl +:+ "      <p>Market Cap: $"
            +:+ toLocaleString (market_cap coin) +:+ "</p>" +:+ nl +:+ "    ";
          onclick := Some (id coin) |}).

(** The card of one selected coin, with its removal button. *)
Definition selected_card (prefs : list (string * value)) (coin : Coin)
  : outcome element :=
  let head :=
    nl +:+ "      <strong>" +:+ name coin +:+ "</strong>" +:+ nl
    +:+ "      <p>Price: $" +:+ number_to_string (current_price coin)
    +:+ "</p>" +:+ nl +:+ "      " in
  obind (change_24h prefs coin) (λ change,
    Ok {| className := "selected-card";
          innerHTML :=
            head +:+ change +:+ nl +:+ "      <button onclick="
            +:+ String dquote "removeCoin('" +:+ id coin +:+ "')"
            +:+ String dquote ">Remove</button>" +:+ nl +:+ "    ";
          onclick := None |}).

(** [coins.forEach((coin, index) => ...)], counting from [index]. *)
Fixpoint forEach (index : nat) (coins : list Coin)
    (body : Coin → nat → M unit) : M unit :=
  match coins with
  | [] => mret tt
  | coin :: rest => body coin index;; forEach (S index) rest body
  end.

(** The callback of [renderCryptoList]: build the card, append it. *)
Definition append_crypto_card (coin : Coin) (index : nat) : M unit :=
  st ← get;
  div ← lift (crypto_card (userPrefs st) index coin);
  modify (λ st, with_cryptoContainer (cryptoContainer st ++ [div]) st).

(** [renderCryptoList]. *)
Definition renderCryptoList (coins : list Coin) : M unit :=
  modify (with_cryptoContainer []);;
  forEach 0 coins append_crypto_card.

(** The callback of [renderSelected]. *)
Definition append_selected_card (coin : Coin) (_ : nat) : M unit :=
  st ← get;
  div ← lift (selected_card (userPrefs st) coin);
  modify (λ st, with_selectedContainer (selectedContainer st ++ [div]) st).

(** [renderSelected]. *)
Definition renderSelected (coins : list Coin) : M unit :=
  modify (with_selectedContainer []);;
  st ← get;
  let selectedData :=
    List.filter (λ c, includes (id c) (selectedCoins st)) coins in
  forEach 0 selectedData append_selected_card;;
  st ← get;
  modify (with_compareBtn_disabled (negb (length (selectedCoins st) =? 5)%nat)).

(** [loadData] from the point where the response has been read. *)
Definition loadData_then (coins : list Coin) : M unit :=
  renderCryptoList coins;;
  renderSelected coins.

(** ** The scheduler *)

(** What can happen to the page once the script has run: the user triggers
    an operation or clicks the compare button, the 60-second timer fires, or
    the answer to an earlier request arrives. *)
Inductive event :=
| User (o : operation)
| Compare
| Tick
| Response (coins : list Coin).

(** A disabled button dispatches no click. *)
Definition handle (e : event) : M unit :=
  match e with
  | User o => perform o
  | Compare =>
      st ← get;
      if compareBtn_disabled st then mret tt else on_compare_click
  | Tick => spawn loadData
  | Response coins => spawn (loadData_then coins)
  end.

(** An exception in a handler ends the handler, not the page. *)
Definition step (st : state) (e : event) : state := snd (handle e st).

Definition run (events : list event) (st : state) : state :=
  fold_left step events st.

(** The script run from top to bottom on a fresh page: the two variables are
    loaded, the preferences are copied into the checkbox and the dropdown,
    then [loadData()] is called.  The checkbox takes any value, as a boolean.
    The value of the dropdown is a string: the sort order is converted to one
    as in a template literal, which raises a TypeError for a value without a
    string form, and the script stops there.  What the two widgets then show
    is no part of the state; the listeners take what they read from them as
    an argument. *)
Definition startup (ls : gmap string string) (crypto selected : list element)
    (disabled : bool) : outcome state :=
  obind (load ls) (λ p,
  obind (template_value (get_prop "sortOrder" (snd p))) (λ _,
    let st := {| selectedCoins := fst p; userPrefs := snd p;
                 localStorage := ls; alerts := []; requests := [];
                 cryptoContainer := crypto; selectedContainer := selected;
                 compareBtn_disabled := disabled |} in
    match spawn loadData st with
    | (Unsupported, _) => Unsupported
    | (_, st') => Ok st'
    end)).

End Rendering.

Arguments Coin {_}.
Arguments event {_}.

(** A host over the integers, to run the model on examples: a number prints
    as its decimal digits, also under [toLocaleString], and [toUpperCase]
    maps the letters a to z.  It is the engine on what the examples use,
    integers of fewer than four digits, which no locale groups, and
    identifiers in unaccented lower case; beyond that it is not, and no
    theorem rests on it: they hold for every host. *)
Definition upper_char (c : ascii) : ascii :=
  let n := nat_of_ascii c in
  if ((97 <=? n) && (n <=? 122))%nat then ascii_of_nat (n - 32) else c.

Fixpoint string_map (f : ascii → ascii) (s : string) : string :=
  match s with
  | EmptyString => EmptyString
  | String c r => String (f c) (string_map f r)
  end.

Fixpoint zeros (n : nat) : string :=
  match n with
  | O => ""
  | S n' => String "0" (zeros n')
  end.

Definition integer_host : Host := {|
  number := Z;
  number_to_string := Z_to_string;
  toFixed := λ n digits,
    match digits with
    | O => Z_to_string n
    | S _ => Z_to_string n +:+ "." +:+ zeros digits
    end;
  toLocaleString := Z_to_string;
  toUpperCase := string_map upper_char;
|}.


(** ** Properties of states, and states to run the model on *)

(** The state lies in the embedded fragment: both variables hold supported
    values.  Every state the page starts in does, and every event keeps it. *)
Definition in_fragment (st : state) : bool :=
  supported (Arr (selectedCoins st)) && supported (Obj (userPrefs st)).



(** The request as the documentation gives it, written out in full for a
    sort-order token, to be compared with what [loadData] builds from
    [API_ENDPOINT] and its template literal. *)
Definition request_for (token : string) : string :=
  "https://api.coingecko.com/api/v3/coins/markets?vs_currency=usd&order="
  +:+ token +:+ "&per_page=50&page=1".

(** The page as the script finds it when nothing was ever stored. *)
Definition fresh_page : state :=
  {| selectedCoins := []; userPrefs := default_prefs; localStorage := ∅;
     alerts := []; requests := []; cryptoContainer := [];
     selectedContainer := []; compareBtn_disabled := true |}.

Definition five_ids : list string :=
  ["bitcoin"; "ethereum"; "tether"; "solana"; "dogecoin"].

(** A page with two coins selected, and one with five. *)
Definition two_selected : state :=
  with_selectedCoins [Str "bitcoin"; Str "ethereum"] fresh_page.

Definition five_selected : state :=
  with_selectedCoins (map Str five_ids) fresh_page.

(** Coins over the integer host: [listed id change] has the given id and
    24h change. *)
Definition listed (id : string) (change : option Z) : @Coin integer_host :=
  @Build_Coin integer_host id id id 1 change 1.

(** A page that shows the 24h change, with one coin selected and the compare
    button enabled, and one with five coins selected and the button disabled. *)
Definition showing_24h : list (string * value) :=
  [("show24h", Bool true); ("sortOrder", Str "market_cap_desc")].

Definition one_selected_showing : state :=
  with_compareBtn_disabled false
    (with_userPrefs showing_24h (with_selectedCoins [Str "bitcoin"] fresh_page)).

Definition five_selected_showing : state :=
  with_userPrefs showing_24h five_selected.

(** Two states with the same store: they differ at most in what is drawn. *)
Definition same_store (st st' : state) : Prop :=
  selectedCoins st' = selectedCoins st
  ∧ userPrefs st' = userPrefs st
  ∧ localStorage st' = localStorage st
  ∧ alerts st' = alerts st.

(** Storage whose Selection Set is not JSON, and storage whose Preferences
    record lacks the sort order. *)
Definition malformed_storage : gmap string string :=
  {["selectedCoins" := "[bitcoin]"]}.

Definition partial_storage : gmap string string :=
  {["userPrefs" := "{" +:+ quote "show24h" +:+ ":true}"]}.

(** What [localStorage] holds once [updateLocal] has run in [st]. *)
Definition persisted (st : state) : gmap string string :=
  <["userPrefs" := JSON.stringify (Obj (userPrefs st))]>
    (<["selectedCoins" := JSON.stringify (Arr (selectedCoins st))]>
       (localStorage st)).

(** The in-memory change [toggleCoin] makes before it saves and refreshes. *)
Definition toggled (id : string) (st : state) : state :=
  if includes id (selectedCoins st) then
    with_selectedCoins (without id (selectedCoins st)) st
  else if (length (selectedCoins st) <? 5)%nat then
    with_selectedCoins (selectedCoins st ++ [Str id]) st
  else with_alerts (alerts st ++ [capacity_notice]) st.

(** The in-memory change of each operation. *)
Definition changed (o : operation) (st : state) : state :=
  match o with
  | Toggle id => toggled id st
  | Remove id => with_selectedCoins (without id (selectedCoins st)) st
  | SetShow24h b =>
      with_userPrefs (set_prop "show24h" (Bool b) (userPrefs st)) st
  | SetSortOrder tok =>
      with_userPrefs (set_prop "sortOrder" (Str tok) (userPrefs st)) st
  end.

(** ** The renderers' loops as functions, and the events that refresh *)

Section Cards.
Context `{Host}.

(** The card templates can be filled for [coin]: the 24h change is hidden, or
    the coin has one to print. *)
Definition renderable (prefs : list (string * value)) (coin : Coin) : bool :=
  match price_change_percentage_24h coin with
  | Some _ => true
  | None => negb (truthy (get_prop "show24h" prefs))
  end.

(** The cards the loop of [renderCryptoList] appends for [coins], counting
    from [index], and how the loop ends: the first card that cannot be built
    ends it with the exception. *)
Fixpoint crypto_cards (prefs : list (string * value)) (index : nat)
    (coins : list Coin) : list element * outcome unit :=
  match coins with
  | [] => ([], Ok tt)
  | coin :: rest =>
      match crypto_card prefs index coin with
      | Ok div =>
          let more := crypto_cards prefs (S index) rest in
          (div :: fst more, snd more)
      | Throw e => ([], Throw e)
      | Unsupported => ([], Unsupported)
      end
  end.

(** The same for the loop of [renderSelected]. *)
Fixpoint selected_cards (prefs : list (string * value)) (coins : list Coin)
  : list element * outcome unit :=
  match coins with
  | [] => ([], Ok tt)
  | coin :: rest =>
      match selected_card prefs coin with
      | Ok div =>
          let more := selected_cards prefs rest in
          (div :: fst more, snd more)
      | Throw e => ([], Throw e)
      | Unsupported => ([], Unsupported)
      end
  end.


End Cards.

(** * Facts about the JSON text of strings *)

Lemma app_cons (c : ascii) (s t : string) :
  String c s +:+ t = String c (s +:+ t).
Proof. reflexivity. Qed.

Lemma app_empty_l (t : string) : "" +:+ t = t.
Proof. reflexivity. Qed.

Lemma app_assoc_str (s t u : string) : (s +:+ t) +:+ u = s +:+ (t +:+ u).
Proof.
  induction s as [|c s IH]; [reflexivity|].
  rewrite !app_cons. by rewrite IH.
Qed.

Lemma length_app_str (s t : string) :
  String.length (s +:+ t) = (String.length s + String.length t)%nat.
Proof.
  induction s as [|c s IH]; [reflexivity|].
  rewrite app_cons. simpl. by rewrite IH.
Qed.

(** Reading back one escaped code unit gives the code unit. *)
Lemma parse_string_escape_char (c : ascii) (t : string) :
  parse_string (escape_char c +:+ t)
  = omap (λ p, (String c (fst p), snd p)) (parse_string t).
Proof.
  destruct c as [[] [] [] [] [] [] [] []]; reflexivity.
Qed.

Lemma parse_string_escape (s rest : string) :
  parse_string (escape s +:+ String dquote rest) = Ok (s, rest).
Proof.
  induction s as [|c s IH].
  - reflexivity.
  - cbn [escape]. rewrite app_assoc_str, parse_string_escape_char, IH.
    reflexivity.
Qed.

Lemma app_empty_r (s : string) : s +:+ "" = s.
Proof. induction s as [|c s IH]; [done|]. by rewrite app_cons, IH. Qed.

Lemma concat_map_cons {A} (f : A → string) (sep : string) (a b : A)
    (l : list A) :
  String.concat sep (map f (a :: b :: l))
  = f a +:+ sep +:+ String.concat sep (map f (b :: l)).
Proof. reflexivity. Qed.

Lemma concat_head {A} (f : A → string) (x : A) (l : list A) (c : ascii)
    (s : string) :
  f x = String c s →
  ∃ s', String.concat "," (map f (x :: l)) = String c s'.
Proof.
  intros Hx. destruct l as [|y l].
  - exists s. exact Hx.
  - rewrite concat_map_cons, Hx, app_cons. by eexists.
Qed.

(** ** The parser's steps on the characters that [JSON.stringify] writes *)

Lemma after_head (c c' : ascii) (s : string) :
  is_ws c' = false →
  after c (String c' s) = if Ascii.eqb c' c then Some s else None.
Proof. intros Hws. unfold after. cbn [skip_ws]. by rewrite Hws. Qed.

Lemma parse_value_dquote (fuel : nat) (r : string) :
  parse_value (S fuel) (String dquote r)
  = omap (λ p, (Str (fst p), snd p)) (parse_string r).
Proof. reflexivity. Qed.

Lemma parse_value_open_bracket (fuel : nat) (c : ascii) (s : string) :
  is_ws c = false → Ascii.eqb c "]" = false →
  parse_value (S fuel) (String "[" (String c s))
  = parse_elements fuel (String c s) [].
Proof.
  intros Hws Hclose.
  change (parse_value (S fuel) (String "[" (String c s)))
    with (match after "]" (String c s) with
          | Some r' => Ok (Arr [], r')
          | None => parse_elements fuel (String c s) []
          end).
  by rewrite after_head, Hclose.
Qed.

Lemma parse_value_open_brace (fuel : nat) (r : string) :
  parse_value (S fuel) (String "{" (String dquote r))
  = parse_members fuel (String dquote r) [].
Proof. reflexivity. Qed.

Lemma parse_elements_step (fuel : nat) (s : string) (acc : list value) :
  parse_elements (S fuel) s acc
  = obind (parse_value fuel s) (λ p,
      match after "," (snd p) with
      | Some r => parse_elements fuel r (acc ++ [fst p])
      | None =>
          match after "]" (snd p) with
          | Some r => Ok (Arr (acc ++ [fst p]), r)
          | None => Throw SyntaxError
          end
      end).
Proof. reflexivity. Qed.

Lemma parse_elements_more (fuel : nat) (R : string) (v : value)
    (acc : list value) :
  parse_value fuel (stringify v +:+ String "," R) = Ok (v, String "," R) →
  parse_elements (S fuel) (stringify v +:+ String "," R) acc
  = parse_elements fuel R (acc ++ [v]).
Proof. intros Hv. by rewrite parse_elements_step, Hv. Qed.

Lemma parse_elements_last (fuel : nat) (R : string) (v : value)
    (acc : list value) :
  parse_value fuel (stringify v +:+ String "]" R) = Ok (v, String "]" R) →
  parse_elements (S fuel) (stringify v +:+ String "]" R) acc
  = Ok (Arr (acc ++ [v]), R).
Proof. intros Hv. by rewrite parse_elements_step, Hv. Qed.

Lemma parse_members_dquote (fuel : nat) (r : string)
    (acc : list (string * value)) :
  parse_members (S fuel) (String dquote r) acc
  = obind (parse_string r) (λ kr,
      if index_like (fst kr) then Unsupported
      else
        match after ":" (snd kr) with
        | None => Throw SyntaxError
        | Some r2 =>
            obind (parse_value fuel r2) (λ p,
              match after "," (snd p) with
              | Some r4 => parse_members fuel r4 (set_prop (fst kr) (fst p) acc)
              | None =>
                  match after "}" (snd p) with
                  | Some r4 => Ok (Obj (set_prop (fst kr) (fst p) acc), r4)
                  | None => Throw SyntaxError
                  end
              end)
        end).
Proof. reflexivity. Qed.

(** One member of an object: after the key and the colon comes the value,
    and the property is stored under the key. *)
Lemma parse_members_key (fuel : nat) (k R : string) (acc : list (string * value)) :
  index_like k = false →
  parse_members (S fuel) (quote k +:+ String ":" R) acc
  = obind (parse_value fuel R) (λ p,
      match after "," (snd p) with
      | Some r4 => parse_members fuel r4 (set_prop k (fst p) acc)
      | None =>
          match after "}" (snd p) with
          | Some r4 => Ok (Obj (set_prop k (fst p) acc), r4)
          | None => Throw SyntaxError
          end
      end).
Proof.
  intros Hk. unfold quote.
  rewrite app_cons, app_assoc_str, app_cons, app_empty_l.
  rewrite parse_members_dquote, parse_string_escape.
  cbn [obind fst snd]. by rewrite Hk.
Qed.

Lemma parse_members_more (fuel : nat) (k R : string) (v : value)
    (acc : list (string * value)) :
  index_like k = false →
  parse_value fuel (stringify v +:+ String "," R) = Ok (v, String "," R) →
  parse_members (S fuel)
    (quote k +:+ String ":" (stringify v +:+ String "," R)) acc
  = parse_members fuel R (set_prop k v acc).
Proof. intros Hk Hv. by rewrite parse_members_key, Hv. Qed.

Lemma parse_members_last (fuel : nat) (k R : string) (v : value)
    (acc : list (string * value)) :
  index_like k = false →
  parse_value fuel (stringify v +:+ String "}" R) = Ok (v, String "}" R) →
  parse_members (S fuel)
    (quote k +:+ String ":" (stringify v +:+ String "}" R)) acc
  = Ok (Obj (set_prop k v acc), R).
Proof. intros Hk Hv. by rewrite parse_members_key, Hv. Qed.

Lemma parse_value_quote (fuel : nat) (s rest : string) :
  (1 ≤ fuel)%nat →
  parse_value fuel (quote s +:+ rest) = Ok (Str s, rest).
Proof.
  intros Hf. destruct fuel as [|fuel]; [lia|].
  unfold quote. rewrite app_cons, app_assoc_str, app_cons, app_empty_l.
  rewrite parse_value_dquote, parse_string_escape. reflexivity.
Qed.

(** ** Numbers *)

Lemma terminated_no_digit (rest : string) :
  terminated rest = true →
  match rest with String c _ => is_digit c = false | EmptyString => True end.
Proof.
  destruct rest as [|c rest]; [done|]. simpl.
  destruct c as [[] [] [] [] [] [] [] []]; done.
Qed.

Lemma parse_digits_stop (acc : Z) (rest : string) :
  terminated rest = true → parse_digits acc rest = (acc, rest).
Proof.
  intros Ht. apply terminated_no_digit in Ht.
  destruct rest as [|c rest]; [done|]. simpl. by rewrite Ht.
Qed.

Lemma parse_digits_acc (d : Decimal.uint) :
  ∀ (p : positive) (rest : string),
    terminated rest = true →
    parse_digits (Z.pos p) (NilEmpty.string_of_uint d +:+ rest)
    = (Z.pos (Pos.of_uint_acc d p), rest).
Proof.
  induction d; intros p rest Ht;
    [by apply parse_digits_stop|..];
    cbn [NilEmpty.string_of_uint Pos.of_uint_acc]; rewrite app_cons;
    cbn [parse_digits];
    match goal with |- context [is_digit ?c] => change (is_digit c) with true end;
    cbv iota;
    match goal with |- parse_digits ?a _ = (Z.pos (Pos.of_uint_acc _ ?q), _) =>
      replace a with (Z.pos q)
        by (set (z := Z.of_nat _); vm_compute in z; subst z; lia) end;
    by apply IHd.
Qed.

Lemma parse_digits_uint (d : Decimal.uint) (rest : string) :
  terminated rest = true →
  parse_digits 0 (NilEmpty.string_of_uint d +:+ rest)
  = (Z.of_N (Pos.of_uint d), rest).
Proof.
  intros Ht. induction d;
    [by apply parse_digits_stop|..];
    cbn [NilEmpty.string_of_uint Pos.of_uint]; rewrite app_cons;
    cbn [parse_digits];
    match goal with |- context [is_digit ?c] => change (is_digit c) with true end;
    cbv iota; [exact IHd|..];
    match goal with |- parse_digits ?a _ = _ =>
      let a' := eval vm_compute in a in change a with a' end;
    by rewrite parse_digits_acc.
Qed.

(** The decimal digits of a positive number start with a digit other than 0. *)
Lemma to_uint_head (p : positive) :
  match Pos.to_uint p with
  | Decimal.Nil | Decimal.D0 _ => False
  | _ => True
  end.
Proof.
  pose proof (DecimalPos.Unsigned.to_of (Pos.to_uint p)) as Hnorm.
  rewrite DecimalPos.Unsigned.of_to in Hnorm. cbn [N.to_uint] in Hnorm.
  pose proof (DecimalPos.Unsigned.to_uint_nonzero p) as Hnz.
  pose proof (nzhead_nonzero (Pos.to_uint p)) as Hhead.
  unfold Decimal.unorm in Hnorm.
  destruct (Decimal.nzhead (Pos.to_uint p)) eqn:E; rewrite Hnorm; try done.
  by specialize (Hhead u).
Qed.

Lemma starts_fraction_terminated (rest : string) :
  terminated rest = true → starts_fraction_or_exponent rest = false.
Proof.
  destruct rest as [|c rest]; [done|]. simpl.
  destruct c as [[] [] [] [] [] [] [] []]; done.
Qed.

Lemma parse_unsigned (p : positive) (rest : string) :
  terminated rest = true →
  ∃ c r, NilEmpty.string_of_uint (Pos.to_uint p) +:+ rest = String c r
         ∧ is_digit c = true ∧ Ascii.eqb c "0" = false ∧ Ascii.eqb c "-" = false
         ∧ parse_digits 0 (String c r) = (Z.pos p, rest).
Proof.
  intros Ht. pose proof (to_uint_head p) as Hhead.
  pose proof (parse_digits_uint (Pos.to_uint p) rest Ht) as Hd.
  rewrite DecimalPos.Unsigned.of_to in Hd. cbn [Z.of_N] in Hd.
  destruct (Pos.to_uint p); try done;
    cbn [NilEmpty.string_of_uint] in *; rewrite app_cons in *;
    do 2 eexists; (split; [reflexivity|]); split_and!; done.
Qed.

Lemma parse_number_Z (n : Z) (rest : string) :
  safe_integer n = true → terminated rest = true →
  parse_number (Z_to_string n +:+ rest) = Ok (Num n, rest).
Proof.
  intros Hsafe Ht. unfold safe_integer in Hsafe.
  apply andb_true_iff in Hsafe as [Hlo Hhi].
  apply Z.leb_le in Hlo, Hhi.
  pose proof (starts_fraction_terminated rest Ht) as Hfrac.
  destruct n as [|p|p]; unfold Z_to_string; cbn [Z.to_int NilZero.string_of_int].
  - change (NilZero.string_of_uint Decimal.zero) with "0".
    rewrite app_cons, app_empty_l. unfold parse_number.
    cbn. by rewrite Hfrac.
  - destruct (parse_unsigned p rest Ht) as (c & r & Htext & Hdigit & H0 & Hminus & Hd).
    assert (Hs : NilZero.string_of_uint (Pos.to_uint p)
                 = NilEmpty.string_of_uint (Pos.to_uint p)).
    { pose proof (to_uint_head p). by destruct (Pos.to_uint p). }
    rewrite Hs, Htext. unfold parse_number.
    rewrite Hminus, Hdigit, H0. cbn [negb]. rewrite Hd, Hfrac.
    assert ((2 ^ 53 <? Z.pos p) = false) as -> by (apply Z.ltb_ge; lia).
    done.
  - destruct (parse_unsigned p rest Ht) as (c & r & Htext & Hdigit & H0 & Hminus & Hd).
    assert (Hs : NilZero.string_of_uint (Pos.to_uint p)
                 = NilEmpty.string_of_uint (Pos.to_uint p)).
    { pose proof (to_uint_head p). by destruct (Pos.to_uint p). }
    rewrite Hs, app_cons, Htext. unfold parse_number.
    change (Ascii.eqb "-" "-") with true. cbv iota.
    rewrite Hdigit, H0. cbn [negb]. rewrite Hd, Hfrac.
    assert ((2 ^ 53 <? Z.pos p) = false) as -> by (apply Z.ltb_ge; lia).
    done.
Qed.

(** What [JSON.stringify] writes for a value starts neither with white space
    nor with a closing bracket. *)
Lemma Z_to_string_head (n : Z) :
  ∃ c s, Z_to_string n = String c s ∧ is_ws c = false ∧ Ascii.eqb c "]" = false
         ∧ Ascii.eqb c "-" || is_digit c = true.
Proof.
  unfold Z_to_string. destruct n as [|p|p]; cbn [Z.to_int NilZero.string_of_int].
  - by exists "0"%char, "".
  - pose proof (to_uint_head p).
    destruct (Pos.to_uint p); try done; do 2 eexists; by split.
  - do 2 eexists; by split.
Qed.

Lemma stringify_head (v : value) :
  ∃ c s, stringify v = String c s ∧ is_ws c = false ∧ Ascii.eqb c "]" = false.
Proof.
  destruct v as [|[]|n|s|l|o]; try (do 2 eexists; by split).
  destruct (Z_to_string_head n) as (c & s & ? & ? & ? & _). by exists c, s.
Qed.

Lemma parse_value_literal (v : value) (fuel : nat) (rest : string) :
  match v with Null | Bool _ => True | _ => False end →
  (1 ≤ fuel)%nat →
  parse_value fuel (stringify v +:+ rest) = Ok (v, rest).
Proof.
  intros Hv Hf. destruct fuel as [|fuel]; [lia|].
  by destruct v as [|[]| | | |].
Qed.

Lemma parse_value_number (n : Z) (fuel : nat) (rest : string) :
  safe_integer n = true → terminated rest = true → (1 ≤ fuel)%nat →
  parse_value fuel (stringify (Num n) +:+ rest) = Ok (Num n, rest).
Proof.
  intros Hsafe Ht Hf. destruct fuel as [|fuel]; [lia|].
  rewrite <- (parse_number_Z n rest Hsafe Ht).
  cbn [stringify].
  destruct (Z_to_string_head n) as (c & s & Hs & Hws & _ & Hd).
  rewrite Hs, app_cons. clear Hs.
  destruct c as [[] [] [] [] [] [] [] []]; done.
Qed.

(** ** Arrays and objects *)

Lemma parse_elements_values (l : list value) :
  Forall reads_back l →
  ∀ (x : value) (acc : list value) (fuel : nat) (rest : string),
    reads_back x →
    (sum_list_with (λ x, S (weight x)) (x :: l) ≤ fuel)%nat →
    parse_elements fuel
      (String.concat "," (map stringify (x :: l)) +:+ String "]" rest) acc
    = Ok (Arr (acc ++ x :: l), rest).
Proof.
  induction 1 as [|y l Hy Hl IH]; intros x acc fuel rest Hx Hf;
    cbn [sum_list_with] in Hf.
  - destruct fuel as [|fuel]; [lia|].
    change (String.concat "," (map stringify [x])) with (stringify x).
    by rewrite parse_elements_last by (apply Hx; [lia|done]).
  - destruct fuel as [|fuel]; [lia|].
    rewrite concat_map_cons.
    rewrite !app_assoc_str, app_cons, app_empty_l.
    rewrite parse_elements_more by (apply Hx; [lia|done]).
    rewrite IH by (done || cbn [sum_list_with]; lia).
    by rewrite <- app_assoc.
Qed.

Lemma set_prop_fresh (k : string) (v : value) (o : list (string * value)) :
  k ∉ map fst o → set_prop k v o = o ++ [(k, v)].
Proof.
  induction o as [|[k' v'] o IH]; [done|]. cbn [map fst]. intros Hk.
  apply not_elem_of_cons in Hk as [Hne Hk]. simpl.
  destruct (String.eqb k' k) eqn:E; [apply String.eqb_eq in E; congruence|].
  by rewrite IH.
Qed.

Lemma parse_members_values (o : list (string * value)) :
  Forall (λ kv, reads_back (snd kv)) o →
  ∀ (kv : string * value) (acc : list (string * value)) (fuel : nat)
    (rest : string),
    reads_back (snd kv) →
    NoDup (map fst (acc ++ kv :: o)) →
    Forall (λ kv, index_like (fst kv) = false) (kv :: o) →
    (sum_list_with (λ kv, S (weight (snd kv))) (kv :: o) ≤ fuel)%nat →
    parse_members fuel
      (String.concat "," (map member_text (kv :: o)) +:+ String "}" rest) acc
    = Ok (Obj (acc ++ kv :: o), rest).
Proof.
  induction 1 as [|kv' o Hkv' Ho IH]; intros [k v] acc fuel rest Hv Hnd Hkeys Hf;
    cbn [sum_list_with snd] in Hf;
    apply Forall_cons in Hkeys as [Hk Hkeys]; cbn [fst snd] in *;
    (assert (Hfresh : k ∉ map fst acc);
     [rewrite map_app in Hnd; apply NoDup_app in Hnd as (_ & Hnd & _);
      intros Hin; apply (Hnd k Hin); cbn; apply list_elem_of_here|]);
    (destruct fuel as [|fuel]; [lia|]).
  - change (String.concat "," (map member_text [(k, v)])) with (member_text (k, v)).
    unfold member_text. cbn [fst snd].
    rewrite !app_assoc_str, app_cons, app_empty_l.
    rewrite parse_members_last by (done || (apply Hv; [lia|done])).
    by rewrite set_prop_fresh.
  - rewrite concat_map_cons. unfold member_text at 1. cbn [fst snd].
    rewrite !app_assoc_str, !app_cons, !app_empty_l.
    rewrite parse_members_more by (done || (apply Hv; [lia|done])).
    rewrite set_prop_fresh by done.
    rewrite (IH kv' (acc ++ [(k, v)]) fuel rest).
    + by rewrite <- app_assoc.
    + done.
    + by rewrite <- app_assoc.
    + done.
    + cbn [sum_list_with]. lia.
Qed.

Lemma stringify_Arr_cons (x : value) (l : list value) (rest : string) :
  stringify (Arr (x :: l)) +:+ rest
  = String "[" (String.concat "," (map stringify (x :: l)) +:+ String "]" rest).
Proof.
  cbn [stringify]. by rewrite !app_assoc_str, !app_cons, !app_empty_l.
Qed.

Lemma stringify_Obj_cons (kv : string * value) (o : list (string * value))
    (rest : string) :
  stringify (Obj (kv :: o)) +:+ rest
  = String "{" (String.concat "," (map member_text (kv :: o)) +:+ String "}" rest).
Proof.
  cbn [stringify]. by rewrite !app_assoc_str, !app_cons, !app_empty_l.
Qed.

(** Every supported value is read back from its text. *)
Lemma stringify_reads_back (v : value) : supported v = true → reads_back v.
Proof.
  induction v as [| b | n | s | l IH | o IH] using value_nested_ind;
    intros Hsup fuel rest Hf Ht; cbn [weight] in Hf.
  - by apply parse_value_literal.
  - by apply parse_value_literal.
  - by apply parse_value_number.
  - apply parse_value_quote. lia.
  - cbn [supported] in Hsup. rewrite forallb_forall in Hsup.
    assert (Hl : Forall reads_back l).
    { apply Forall_forall. intros x Hx.
      rewrite Forall_forall in IH. apply IH; [done|].
      by apply Hsup, list_elem_of_In. }
    clear IH Hsup. destruct fuel as [|fuel]; [lia|].
    destruct Hl as [|x l Hx Hl]; [done|].
    rewrite stringify_Arr_cons.
    destruct (stringify_head x) as (c & s & Hs & Hws & Hclose).
    destruct (concat_head stringify x l c s Hs) as [s' Hc].
    rewrite Hc, app_cons, parse_value_open_bracket, <- app_cons, <- Hc by done.
    rewrite parse_elements_values by (done || lia). done.
  - cbn [supported] in Hsup. apply andb_true_iff in Hsup as [Hnd Hsup].
    apply bool_decide_eq_true in Hnd. rewrite forallb_forall in Hsup.
    assert (Ho : Forall (λ kv, reads_back (snd kv)) o).
    { apply Forall_forall. intros kv Hkv.
      rewrite Forall_forall in IH. apply IH; [done|].
      apply list_elem_of_In, Hsup, andb_true_iff in Hkv. tauto. }
    assert (Hkeys : Forall (λ kv, index_like (fst kv) = false) o).
    { apply Forall_forall. intros kv Hkv.
      apply list_elem_of_In, Hsup, andb_true_iff in Hkv as [Hk _].
      by apply negb_true_iff in Hk. }
    clear IH Hsup. destruct fuel as [|fuel]; [lia|].
    destruct Ho as [|kv o Hkv Ho]; [done|].
    rewrite stringify_Obj_cons.
    assert (∃ s, member_text kv = String dquote s) as [s Hq] by by eexists.
    destruct (concat_head member_text kv o _ _ Hq) as [s' Hc].
    rewrite Hc, app_cons, parse_value_open_brace, <- app_cons, <- Hc.
    rewrite parse_members_values by (done || lia). done.
Qed.

Lemma sum_le_concat {A} (f : A → string) (w : A → nat) (l : list A) :
  Forall (λ x, (w x ≤ 2 * String.length (f x) + 1)%nat) l →
  (sum_list_with (λ x, S (w x)) l
   ≤ 2 * String.length (String.concat "," (map f l)) + 2)%nat.
Proof.
  induction 1 as [|x l Hx Hl IH]; [simpl; lia|].
  destruct l as [|y l].
  - cbn [sum_list_with map String.concat]. lia.
  - rewrite concat_map_cons, !length_app_str.
    cbn [sum_list_with] in *. cbn [String.length]. lia.
Qed.

Lemma weight_Arr (l : list value) :
  weight (Arr l) = S (sum_list_with (λ x, S (weight x)) l).
Proof. reflexivity. Qed.

Lemma weight_Obj (o : list (string * value)) :
  weight (Obj o) = S (sum_list_with (λ kv, S (weight (snd kv))) o).
Proof. reflexivity. Qed.

Lemma stringify_Arr (l : list value) :
  stringify (Arr l) = "[" +:+ String.concat "," (map stringify l) +:+ "]".
Proof. reflexivity. Qed.

Lemma stringify_Obj (o : list (string * value)) :
  stringify (Obj o) = "{" +:+ String.concat "," (map member_text o) +:+ "}".
Proof. reflexivity. Qed.

(** The fuel [JSON.read] starts with is enough for what [JSON.stringify]
    writes. *)
Lemma weight_le_length (v : value) :
  (weight v ≤ 2 * String.length (stringify v) + 1)%nat.
Proof.
  induction v as [| b | n | s | l IH | o IH] using value_nested_ind;
    try (cbn [weight]; lia).
  - rewrite weight_Arr, stringify_Arr, !length_app_str. cbn [String.length].
    pose proof (sum_le_concat stringify weight l IH). lia.
  - rewrite weight_Obj, stringify_Obj, !length_app_str. cbn [String.length].
    pose proof (sum_le_concat member_text (λ kv, weight (snd kv)) o) as Hsum.
    assert (Hm : Forall (λ kv, (weight (snd kv)
                   ≤ 2 * String.length (member_text kv) + 1)%nat) o).
    { eapply Forall_impl; [exact IH|]. intros kv Hkv. cbn beta in *.
      unfold member_text. rewrite !length_app_str. lia. }
    specialize (Hsum Hm). lia.
Qed.

(** Reading undoes [JSON.stringify] on every supported value. *)
Lemma read_stringify (v : value) :
  supported v = true → JSON.read (stringify v) = Ok v.
Proof.
  intros Hsup. unfold JSON.read.
  pose proof (weight_le_length v) as Hw.
  pose proof (stringify_reads_back v Hsup
                (2 * String.length (stringify v) + 2)%nat "") as Hread.
  rewrite app_empty_r in Hread. rewrite Hread by (done || lia). done.
Qed.

(** ** What the parser returns is supported *)




Lemma elem_of_keys_set_prop (k k' : string) (v : value)
    (o : list (string * value)) :
  k' ∈ map fst (set_prop k v o) ↔ k' = k ∨ k' ∈ map fst o.
Proof.
  induction o as [|[k0 v0] o IH]; cbn [set_prop map fst].
  - rewrite list_elem_of_singleton, elem_of_nil. tauto.
  - destruct (String.eqb k0 k) eqn:E; cbn [map fst].
    + apply String.eqb_eq in E as ->. rewrite !elem_of_cons. tauto.
    + rewrite !elem_of_cons, IH. tauto.
Qed.

Lemma set_prop_NoDup (k : string) (v : value) (o : list (string * value)) :
  NoDup (map fst o) → NoDup (map fst (set_prop k v o)).
Proof.
  induction o as [|[k0 v0] o IH]; cbn [set_prop map fst]; intros Hnd.
  - apply NoDup_singleton.
  - apply NoDup_cons in Hnd as [Hk0 Hnd].
    destruct (String.eqb k0 k) eqn:E; cbn [map fst].
    + apply String.eqb_eq in E as ->. by apply NoDup_cons.
    + apply NoDup_cons. split; [|by apply IH].
      rewrite elem_of_keys_set_prop. intros [->|?]; [|done].
      by rewrite String.eqb_refl in E.
Qed.

Lemma set_prop_forallb (P : string * value → bool) (k : string) (v : value)
    (o : list (string * value)) :
  P (k, v) = true → forallb P o = true → forallb P (set_prop k v o) = true.
Proof.
  intros Hkv. induction o as [|[k0 v0] o IH]; cbn [set_prop forallb].
  - by rewrite Hkv.
  - intros [H0 Ho]%andb_true_iff.
    destruct (String.eqb k0 k); cbn [forallb]; apply andb_true_iff; auto.
Qed.

(** Writing a property with a supported value under a key that is no array
    index keeps an object supported. *)
Lemma set_prop_supported (k : string) (v : value) (o : list (string * value)) :
  index_like k = false → supported v = true → supported (Obj o) = true →
  supported (Obj (set_prop k v o)) = true.
Proof.
  intros Hk Hv. cbn [supported]. intros [Hnd Ho]%andb_true_iff.
  apply bool_decide_eq_true in Hnd. apply andb_true_iff. split.
  - apply bool_decide_eq_true. by apply set_prop_NoDup.
  - apply set_prop_forallb; [|done]. cbn [fst snd]. by rewrite Hk, Hv.
Qed.

Lemma forallb_snoc {A} (P : A → bool) (l : list A) (x : A) :
  forallb P l = true → P x = true → forallb P (l ++ [x]) = true.
Proof.
  intros Hl Hx. rewrite forallb_app, Hl. cbn. by rewrite Hx.
Qed.



(** ** The scanner and the parser *)

Lemma agree_omap {A B} (f : A * string → B) (p : outcome (A * string))
    (q : outcome string) :
  agree p q → agree (omap (λ x, (f x, snd x)) p) q.
Proof. by destruct p as [[a r]| |]. Qed.

Lemma parse_string_scan (n : nat) :
  ∀ s, (String.length s ≤ n)%nat → agree (parse_string s) (scan_string s).
Proof.
  induction n as [|n IH]; intros [|c r] Hlen; try done; [simpl in Hlen; lia|].
  cbn [String.length] in Hlen. cbn [parse_string scan_string].
  destruct (Ascii.eqb c dquote); [done|].
  destruct (Ascii.eqb c backslash).
  - destruct r as [|e r']; [done|]. cbn [String.length] in Hlen.
    destruct (unescape e).
    { apply agree_omap, IH. lia. }
    destruct (Ascii.eqb e "u"); [|done].
    destruct r' as [|h1 [|h2 [|h3 [|h4 r'']]]]; try done.
    cbn [String.length] in Hlen.
    destruct (hex4 h1 h2 h3 h4) as [code|]; [|done].
    destruct (code <? 256)%nat; [|done]. apply agree_omap, IH. lia.
  - destruct (nat_of_ascii c <? 32)%nat; [done|]. apply agree_omap, IH. lia.
Qed.

Lemma parse_digits_skip (s : string) :
  ∀ acc, snd (parse_digits acc s) = skip_digits s.
Proof.
  induction s as [|c s IH]; intros acc; [done|]. cbn [parse_digits skip_digits].
  by destruct (is_digit c).
Qed.

Lemma starts_fraction_scan (s : string) :
  starts_fraction_or_exponent s = false →
  scan_fraction s = Some s ∧ scan_exponent s = Some s.
Proof.
  destruct s as [|c r]; [done|]. cbn.
  intros [[-> ->]%orb_false_iff ->]%orb_false_iff. done.
Qed.

Lemma parse_number_scan (s : string) : agree (parse_number s) (scan_number s).
Proof.
  unfold parse_number, scan_number.
  set (s1 := match s with
             | String c r => if Ascii.eqb c "-" then r else s
             | EmptyString => s
             end).
  assert (Hs1 : ∃ neg, (match s with
                        | String c r => if Ascii.eqb c "-" then (true, r) else (false, s)
                        | EmptyString => (false, s)
                        end) = (neg, s1)).
  { subst s1. destruct s as [|c r]; [by eexists|].
    destruct (Ascii.eqb c "-"); by eexists. }
  destruct Hs1 as [neg ->]. destruct s1 as [|d r]; [done|].
  destruct (is_digit d) eqn:Hd; [|done]. cbn [negb].
  assert (Hrest : ∃ n, (if Ascii.eqb d "0" then (0, r) else parse_digits 0 (String d r))
                       = (n, if Ascii.eqb d "0" then r else skip_digits r)).
  { destruct (Ascii.eqb d "0"); [by eexists|].
    cbn [parse_digits]. rewrite Hd.
    eexists. rewrite (surjective_pairing (parse_digits _ r)).
    by rewrite parse_digits_skip. }
  destruct Hrest as [n ->].
  destruct (starts_fraction_or_exponent _) eqn:Hf; [done|].
  destruct (starts_fraction_scan _ Hf) as [-> ->].
  destruct (2 ^ 53 <? n); [done|]. by destruct (neg && (n =? 0)).
Qed.

Lemma parse_literal_scan (word : string) (v : value) (s : string) :
  agree (parse_literal word v s) (scan_literal word s).
Proof. unfold parse_literal, scan_literal. by destruct (strip_prefix word s). Qed.

Lemma parse_value_scan (fuel : nat) :
  (∀ s, agree (parse_value fuel s) (scan_value fuel s))
  ∧ (∀ s acc, agree (parse_elements fuel s acc) (scan_elements fuel s))
  ∧ (∀ s acc, agree (parse_members fuel s acc) (scan_members fuel s)).
Proof.
  induction fuel as [|fuel (IHv & IHe & IHm)]; [done|]. split_and!.
  - intros s. cbn [parse_value scan_value].
    destruct (skip_ws s) as [|c t]; [done|].
    destruct (Ascii.eqb c "[").
    { destruct (after "]" t); [done|]. apply IHe. }
    destruct (Ascii.eqb c "{").
    { destruct (after "}" t); [done|]. apply IHm. }
    destruct (Ascii.eqb c dquote).
    { apply (agree_omap (λ p, Str (fst p))). by eapply parse_string_scan. }
    destruct (Ascii.eqb c "t"); [apply parse_literal_scan|].
    destruct (Ascii.eqb c "f"); [apply parse_literal_scan|].
    destruct (Ascii.eqb c "n"); [apply parse_literal_scan|].
    destruct (Ascii.eqb c "-" || is_digit c); [|done].
    apply parse_number_scan.
  - intros s acc. rewrite parse_elements_step. cbn [scan_elements].
    pose proof (IHv s) as Hv.
    destruct (parse_value fuel s) as [[x t]| |]; cbn in Hv; rewrite ?Hv;
      [|done..].
    cbn [obind fst snd].
    destruct (after "," t); [apply IHe|]. by destruct (after "]" t).
  - intros s acc. cbn [parse_members scan_members].
    destruct (after dquote s) as [t|]; [|done].
    pose proof (parse_string_scan _ t (le_n _)) as Hk.
    destruct (parse_string t) as [[k t1]| |]; cbn in Hk; rewrite ?Hk;
      [|done..].
    cbn [obind fst snd]. destruct (index_like k); [done|].
    destruct (after ":" t1) as [t2|]; [|done].
    pose proof (IHv t2) as Hv.
    destruct (parse_value fuel t2) as [[x t3]| |]; cbn in Hv; rewrite ?Hv;
      [|done..].
    cbn [obind fst snd].
    destruct (after "," t3); [apply IHm|]. by destruct (after "}" t3).
Qed.

(** Where the parser answers, the scanner has answered the same way: a text
    that is read is well-formed, and a text the parser rejects is rejected. *)
Lemma read_scan (text : string) :
  match read text with
  | Ok _ => scan text = Ok tt
  | Throw e => scan text = Throw e
  | Unsupported => True
  end.
Proof.
  unfold read, scan.
  pose proof (proj1 (parse_value_scan (2 * String.length text + 2)) text) as Hv.
  destruct (parse_value _ text) as [[v r]| |]; unfold agree in Hv;
    rewrite ?Hv; [|done..].
  cbn [obind fst snd]. by destruct (skip_ws r).
Qed.

Lemma parse_read (text : string) :
  read text ≠ Unsupported → parse text = read text.
Proof.
  intros Hread. unfold parse. pose proof (read_scan text) as Hscan.
  destruct (read text) as [v|e|]; [by rewrite Hscan..|done].
Qed.


(** [JSON.parse] undoes [JSON.stringify] on every supported value. *)
Lemma parse_stringify (v : value) :
  supported v = true → JSON.parse (stringify v) = Ok v.
Proof.
  intros Hsup. rewrite parse_read; rewrite read_stringify; done.
Qed.


(** ** The scanner decides *)

Lemma decided_mono (q : outcome string) (n m : nat) :
  (n ≤ m)%nat → decided q n → decided q m.
Proof. intros Hnm. destruct q as [r|e|]; simpl; [lia|done..]. Qed.

Lemma skip_ws_length (s : string) :
  (String.length (skip_ws s) ≤ String.length s)%nat.
Proof.
  induction s as [|c s IH]; [done|]. cbn [skip_ws].
  destruct (is_ws c); cbn [String.length]; lia.
Qed.

Lemma skip_ws_cons (s : string) (c : ascii) (t : string) :
  skip_ws s = String c t → (String.length t < String.length s)%nat.
Proof.
  intros Hs. pose proof (skip_ws_length s) as Hlen. rewrite Hs in Hlen.
  cbn [String.length] in Hlen. lia.
Qed.

Lemma after_length (c : ascii) (s r : string) :
  after c s = Some r → (String.length r < String.length s)%nat.
Proof.
  unfold after. destruct (skip_ws s) as [|c' t] eqn:Hs; [done|].
  destruct (Ascii.eqb c' c); [|done]. intros [= <-]. by eapply skip_ws_cons.
Qed.

Lemma scan_string_decided (n : nat) :
  ∀ s, (String.length s ≤ n)%nat → decided (scan_string s) (String.length s).
Proof.
  induction n as [|n IH]; intros [|c r] Hlen; try done; [simpl in Hlen; lia|].
  cbn [String.length] in Hlen. cbn [scan_string].
  destruct (Ascii.eqb c dquote); [simpl; lia|].
  destruct (Ascii.eqb c backslash).
  - destruct r as [|e r']; [done|]. cbn [String.length] in Hlen.
    destruct (unescape e).
    { eapply decided_mono; [|apply IH]; cbn [String.length]; lia. }
    destruct (Ascii.eqb e "u"); [|done].
    destruct r' as [|h1 [|h2 [|h3 [|h4 r'']]]]; try done.
    cbn [String.length] in Hlen.
    destruct (hex4 h1 h2 h3 h4); [|done].
    eapply decided_mono; [|apply IH]; cbn [String.length]; lia.
  - destruct (nat_of_ascii c <? 32)%nat; [done|].
    eapply decided_mono; [|apply IH]; cbn [String.length]; lia.
Qed.

Lemma skip_digits_length (s : string) :
  (String.length (skip_digits s) ≤ String.length s)%nat.
Proof.
  induction s as [|c s IH]; [done|]. cbn [skip_digits].
  destruct (is_digit c); cbn [String.length]; lia.
Qed.

Lemma scan_digits_length (s r : string) :
  scan_digits s = Some r → (String.length r < String.length s)%nat.
Proof.
  destruct s as [|c s]; [done|]. cbn [scan_digits String.length].
  destruct (is_digit c); [|done]. intros [= <-].
  pose proof (skip_digits_length s). lia.
Qed.

Lemma scan_fraction_length (s r : string) :
  scan_fraction s = Some r → (String.length r ≤ String.length s)%nat.
Proof.
  destruct s as [|c s]; [by intros [= <-]|]. cbn [scan_fraction String.length].
  destruct (Ascii.eqb c ".").
  - intros Hr%scan_digits_length. lia.
  - by intros [= <-].
Qed.

Lemma scan_exponent_length (s r : string) :
  scan_exponent s = Some r → (String.length r ≤ String.length s)%nat.
Proof.
  destruct s as [|c s]; [by intros [= <-]|]. cbn [scan_exponent String.length].
  destruct (Ascii.eqb c "e" || Ascii.eqb c "E"); [|by intros [= <-]].
  destruct s as [|sign s']; [done|]. cbn [String.length].
  destruct (Ascii.eqb sign "+" || Ascii.eqb sign "-").
  - intros Hr%scan_digits_length. lia.
  - intros Hr%scan_digits_length. cbn [String.length] in Hr. lia.
Qed.

Lemma scan_number_decided (s : string) :
  decided (scan_number s) (String.length s).
Proof.
  unfold scan_number.
  set (s1 := match s with
             | String c r => if Ascii.eqb c "-" then r else s
             | EmptyString => s
             end).
  assert (Hs1 : (String.length s1 ≤ String.length s)%nat).
  { subst s1. destruct s as [|c r]; [done|].
    destruct (Ascii.eqb c "-"); cbn [String.length]; lia. }
  destruct s1 as [|d r]; [done|]. cbn [String.length] in Hs1.
  destruct (is_digit d); [|done]. cbn [negb].
  set (r1 := if Ascii.eqb d "0" then r else skip_digits r).
  assert (Hr1 : (String.length r1 ≤ String.length r)%nat).
  { subst r1. destruct (Ascii.eqb d "0"); [done|apply skip_digits_length]. }
  destruct (scan_fraction r1) as [s2|] eqn:H2; [|done].
  apply scan_fraction_length in H2.
  destruct (scan_exponent s2) as [s3|] eqn:H3; [|done].
  apply scan_exponent_length in H3. simpl. lia.
Qed.

Lemma strip_prefix_length (p s r : string) :
  strip_prefix p s = Some r → (String.length r ≤ String.length s)%nat.
Proof.
  revert s. induction p as [|a p IH]; intros s; [by intros [= <-]|].
  destruct s as [|b s]; [done|]. cbn [strip_prefix String.length].
  destruct (Ascii.eqb a b); [|done]. intros Hr%IH. lia.
Qed.

Lemma scan_literal_decided (word s : string) :
  decided (scan_literal word s) (S (String.length s)).
Proof.
  unfold scan_literal. destruct (strip_prefix word s) as [r|] eqn:Hr; [|done].
  apply strip_prefix_length in Hr. simpl. lia.
Qed.

Lemma scan_value_decided (fuel : nat) :
  (∀ s, (2 * String.length s + 1 ≤ fuel)%nat →
        decided (scan_value fuel s) (String.length s))
  ∧ (∀ s, (2 * String.length s + 2 ≤ fuel)%nat →
          decided (scan_elements fuel s) (String.length s))
  ∧ (∀ s, (2 * String.length s + 2 ≤ fuel)%nat →
          decided (scan_members fuel s) (String.length s)).
Proof.
  induction fuel as [|fuel (IHv & IHe & IHm)]; [split_and!; intros s; lia|].
  split_and!.
  - intros s Hfuel. cbn [scan_value].
    destruct (skip_ws s) as [|c t] eqn:Hs; [done|].
    apply skip_ws_cons in Hs.
    destruct (Ascii.eqb c "[").
    { destruct (after "]" t) as [r|] eqn:Hr.
      - apply after_length in Hr. simpl. lia.
      - eapply decided_mono; [|apply IHe]; lia. }
    destruct (Ascii.eqb c "{").
    { destruct (after "}" t) as [r|] eqn:Hr.
      - apply after_length in Hr. simpl. lia.
      - eapply decided_mono; [|apply IHm]; lia. }
    destruct (Ascii.eqb c dquote).
    { eapply decided_mono; [|by eapply scan_string_decided]. lia. }
    destruct (Ascii.eqb c "t");
      [eapply decided_mono; [|apply scan_literal_decided]; lia|].
    destruct (Ascii.eqb c "f");
      [eapply decided_mono; [|apply scan_literal_decided]; lia|].
    destruct (Ascii.eqb c "n");
      [eapply decided_mono; [|apply scan_literal_decided]; lia|].
    destruct (Ascii.eqb c "-" || is_digit c); [|done].
    eapply decided_mono; [|apply scan_number_decided]. cbn [String.length]. lia.
  - intros s Hfuel. cbn [scan_elements].
    pose proof (IHv s ltac:(lia)) as Hv.
    destruct (scan_value fuel s) as [r|e|]; [|done..]. simpl in Hv.
    cbn [obind]. destruct (after "," r) as [r'|] eqn:Hr'.
    { apply after_length in Hr'. eapply decided_mono; [|apply IHe]; lia. }
    destruct (after "]" r) as [r'|] eqn:Hr''; [|done].
    apply after_length in Hr''. simpl. lia.
  - intros s Hfuel. cbn [scan_members].
    destruct (after dquote s) as [t|] eqn:Ht; [|done].
    apply after_length in Ht.
    pose proof (scan_string_decided _ t (le_n _)) as Hk.
    destruct (scan_string t) as [t1|e|]; [|done..]. simpl in Hk.
    cbn [obind]. destruct (after ":" t1) as [t2|] eqn:Ht2; [|done].
    apply after_length in Ht2.
    pose proof (IHv t2 ltac:(lia)) as Hv.
    destruct (scan_value fuel t2) as [t3|e|]; [|done..]. simpl in Hv.
    cbn [obind]. destruct (after "," t3) as [t4|] eqn:Ht4.
    { apply after_length in Ht4. eapply decided_mono; [|apply IHm]; lia. }
    destruct (after "}" t3) as [t4|] eqn:Ht4'; [|done].
    apply after_length in Ht4'. simpl. lia.
Qed.

(** On every text the scanner answers: the text is well-formed, or it has a
    syntax error. *)
Lemma scan_decides (text : string) :
  scan text = Ok tt ∨ scan text = Throw SyntaxError.
Proof.
  unfold scan.
  pose proof (proj1 (scan_value_decided (2 * String.length text + 2)) text
                ltac:(lia)) as Hv.
  destruct (scan_value _ text) as [r|e|]; [|simpl in Hv; subst; by right|done].
  cbn [obind]. destruct (skip_ws r); [by left|by right].
Qed.

(** [JSON.parse] raises a SyntaxError exactly on the texts that are not
    well-formed; a well-formed text is read. *)
Lemma parse_ill_formed (text : string) :
  well_formed text = false → JSON.parse text = Throw SyntaxError.
Proof.
  unfold well_formed, JSON.parse.
  by destruct (scan_decides text) as [-> | ->].
Qed.

Lemma parse_well_formed (text : string) :
  well_formed text = true → JSON.parse text = read text.
Proof. unfold well_formed, JSON.parse. by destruct (scan text). Qed.

Lemma parse_Throw (text : string) (e : exn) :
  JSON.parse text = Throw e → well_formed text = false ∧ e = SyntaxError.
Proof.
  intros Hparse. destruct (well_formed text) eqn:Hwf.
  - rewrite (parse_well_formed _ Hwf) in Hparse.
    pose proof (read_scan text) as Hscan. rewrite Hparse in Hscan.
    unfold well_formed in Hwf. by rewrite Hscan in Hwf.
  - rewrite (parse_ill_formed _ Hwf) in Hparse. by simplify_eq.
Qed.

(** * The state store *)

Lemma is_id_true (id : string) (c : value) : is_id id c = true ↔ c = Str id.
Proof.
  destruct c; simpl; try (split; [discriminate|congruence]).
  rewrite String.eqb_eq. split; congruence.
Qed.

Lemma includes_true (id : string) (l : list value) :
  includes id l = true ↔ Str id ∈ l.
Proof.
  unfold includes. rewrite existsb_exists. split.
  - intros (c & Hin & Hc). apply is_id_true in Hc as ->.
    by apply list_elem_of_In.
  - intros Hin. exists (Str id). split; [by apply list_elem_of_In|].
    by apply is_id_true.
Qed.

Lemma includes_false (id : string) (l : list value) :
  includes id l = false ↔ Str id ∉ l.
Proof.
  rewrite <- includes_true. destruct (includes id l); split; congruence.
Qed.

Lemma elem_of_without (id : string) (l : list value) (x : value) :
  x ∈ without id l ↔ x ∈ l ∧ x ≠ Str id.
Proof.
  unfold without. rewrite !list_elem_of_In, filter_In, negb_true_iff.
  rewrite <- not_true_iff_false, is_id_true. done.
Qed.

Lemma without_sublist (id : string) (l : list value) :
  without id l `sublist_of` l.
Proof.
  induction l as [|c l IH]; [done|]. simpl.
  destruct (is_id id c); simpl; by constructor.
Qed.

Lemma without_absent (id : string) (l : list value) :
  Str id ∉ l → without id l = l.
Proof.
  induction l as [|c l IH]; [done|]. intros Hnin. simpl.
  apply not_elem_of_cons in Hnin as [Hc Hl].
  destruct (is_id id c) eqn:E; [apply is_id_true in E; congruence|].
  simpl. by rewrite IH.
Qed.

Lemma without_app (id : string) (l k : list value) :
  without id (l ++ k) = without id l ++ without id k.
Proof. apply List.filter_app. Qed.

Lemma without_length (id : string) (l : list value) :
  (length (without id l) ≤ length l)%nat.
Proof. apply sublist_length, without_sublist. Qed.

Lemma without_NoDup (id : string) (l : list value) :
  NoDup l → NoDup (without id l).
Proof. intros Hl. eapply sublist_NoDup; [done|apply without_sublist]. Qed.

(** Among the sublists that avoid [id], [without id l] is the largest. *)
Lemma without_greatest (id : string) (l k : list value) :
  k `sublist_of` l → Str id ∉ k → k `sublist_of` without id l.
Proof.
  intros Hsub. induction Hsub as [|x k l Hsub IH|x k l Hsub IH]; intros Hk.
  - done.
  - apply not_elem_of_cons in Hk as [Hx Hk]. simpl.
    destruct (is_id id x) eqn:E; [apply is_id_true in E; congruence|].
    simpl. constructor. by apply IH.
  - simpl. destruct (is_id id x); simpl; [by apply IH|].
    constructor. by apply IH.
Qed.

(** A present identifier, once, can be put back at the end. *)
Lemma without_Permutation (id : string) (l : list value) :
  NoDup l → Str id ∈ l → without id l ++ [Str id] ≡ₚ l.
Proof.
  intros Hnd Hin. apply NoDup_Permutation.
  - apply NoDup_app. split_and!.
    + by apply without_NoDup.
    + intros x Hx ->%list_elem_of_singleton.
      apply elem_of_without in Hx as [_ Hx]. done.
    + apply NoDup_singleton.
  - done.
  - intros x. rewrite elem_of_app, elem_of_without, list_elem_of_singleton.
    split; [intros [[? _]| ->]; done|].
    intros Hx. destruct (is_id id x) eqn:E.
    + right. by apply is_id_true.
    + left. split; [done|]. intros Heq. apply is_id_true in Heq. congruence.
Qed.

(** ** What an operation does to the page *)

Lemma updateLocal_eq (st : state) :
  updateLocal st = (Ok tt, with_localStorage (persisted st) st).
Proof. reflexivity. Qed.

Lemma loadData_eq (st : state) :
  loadData st
  = match template_value (get_prop "sortOrder" (userPrefs st)) with
    | Ok order =>
        (Ok tt,
         with_requests
           (requests st ++
              [API_ENDPOINT +:+ "?vs_currency=usd&order=" +:+ order
               +:+ "&per_page=50&page=1"]) st)
    | Throw e => (Throw e, st)
    | Unsupported => (Unsupported, st)
    end.
Proof.
  unfold loadData, mbind, M_bind, get, lift, fetch, modify.
  by destruct (template_value _).
Qed.

Lemma template_value_supported (o : option value) :
  template_value o ≠ Unsupported.
Proof.
  assert (H : ∀ v, ToString v ≠ Unsupported).
  { induction v as [|[]| | |l IH|o' _] using value_nested_ind; try done.
    - simpl. induction IH as [|x l Hx _ IHl]; [done|].
      assert (Hx' : match x with Null => Ok "" | _ => ToString x end
                    ≠ Unsupported) by (by destruct x).
      destruct (match x with Null => Ok "" | _ => ToString x end);
        [|done|done].
      cbn [obind]. destruct l as [|y l']; [done|].
      revert IHl. cbn [ToString]. unfold omap.
      match goal with |- ?J ≠ _ → obind ?J _ ≠ _ => by destruct J end.
    - simpl. by destruct (get_prop _ _). }
  destruct o; [apply H|done].
Qed.

Lemma spawn_snd (m : M unit) (st : state) : snd (spawn m st) = snd (m st).
Proof. unfold spawn. by destruct (m st) as [[| |] ?]. Qed.

(** The refresh an operation ends with only adds to the requests. *)
Lemma spawn_loadData (st : state) :
  ∃ r, spawn loadData st = (Ok tt, with_requests (requests st ++ r) st).
Proof.
  unfold spawn. rewrite loadData_eq.
  pose proof (template_value_supported (get_prop "sortOrder" (userPrefs st))).
  destruct (template_value _) as [order|e|]; [by eexists|..|done].
  exists []. rewrite app_nil_r. by destruct st.
Qed.

(** Every operation completes: it makes its change in memory, writes both
    keys of the storage from the changed state, and sends a request. *)
Lemma perform_eq (o : operation) (st : state) :
  ∃ r, perform o st
       = (Ok tt,
          with_requests (requests st ++ r)
            (with_localStorage (persisted (changed o st)) (changed o st))).
Proof.
  assert (H : ∀ st1, requests st1 = requests st →
            ∃ r, (updateLocal;; spawn loadData) st1
                 = (Ok tt, with_requests (requests st ++ r)
                             (with_localStorage (persisted st1) st1))).
  { intros st1 Hreq. unfold mbind, M_bind. rewrite updateLocal_eq.
    destruct (spawn_loadData (with_localStorage (persisted st1) st1))
      as [r ->]. exists r. simpl. by rewrite Hreq. }
  destruct o as [id|id|b|tok]; simpl.
  - unfold toggleCoin, toggled.
    destruct (includes id (selectedCoins st)) eqn:Hin;
      [|destruct (length (selectedCoins st) <? 5)%nat eqn:Hlen];
      (edestruct H as [r Hr]; [|exists r; unfold mbind, M_bind in *; simpl;
         rewrite ?Hin, ?Hlen; simpl; exact Hr]); done.
  - edestruct H as [r Hr]; [|exists r; exact Hr]. done.
  - edestruct H as [r Hr]; [|exists r; exact Hr]. done.
  - edestruct H as [r Hr]; [|exists r; exact Hr]. done.
Qed.

(** Every operation makes its change, saves, and ends with the call of
    [loadData]. *)
Lemma perform_spawn (o : operation) (st : state) :
  perform o st
  = spawn loadData (with_localStorage (persisted (changed o st)) (changed o st)).
Proof.
  destruct o as [id|id|b|tok]; simpl; try reflexivity.
  unfold toggleCoin, toggled, mbind, M_bind, get, modify, alert.
  destruct (includes id (selectedCoins st)); [reflexivity|].
  by destruct (length (selectedCoins st) <? 5)%nat.
Qed.

Lemma loadData_order (st : state) (order : string) :
  template_value (get_prop "sortOrder" (userPrefs st)) = Ok order →
  loadData st = (Ok tt, with_requests (requests st ++ [request_for order]) st).
Proof. intros Hp. rewrite loadData_eq, Hp. reflexivity. Qed.

Lemma selectedCoins_exec (o : operation) (st : state) :
  selectedCoins (exec o st) = selectedCoins (changed o st).
Proof. unfold exec. by destruct (perform_eq o st) as [r ->]. Qed.

Lemma userPrefs_exec (o : operation) (st : state) :
  userPrefs (exec o st) = userPrefs (changed o st).
Proof. unfold exec. by destruct (perform_eq o st) as [r ->]. Qed.

Lemma alerts_exec (o : operation) (st : state) :
  alerts (exec o st) = alerts (changed o st).
Proof. unfold exec. by destruct (perform_eq o st) as [r ->]. Qed.

Lemma localStorage_exec (o : operation) (st : state) :
  localStorage (exec o st) = persisted (exec o st).
Proof.
  unfold exec. destruct (perform_eq o st) as [r ->].
  unfold persisted.
  cbn [snd localStorage selectedCoins userPrefs with_requests with_localStorage].
  set (sel := JSON.stringify (Arr _)). set (prefs := JSON.stringify (Obj _)).
  apply map_eq. intros k.
  destruct (decide (k = "userPrefs")) as [->|Hk];
    [by rewrite !lookup_insert_eq|].
  rewrite !(lookup_insert_ne _ "userPrefs") by done.
  destruct (decide (k = "selectedCoins")) as [->|Hk'];
    [by rewrite !lookup_insert_eq|].
  by rewrite !lookup_insert_ne by done.
Qed.

Lemma changed_bounded (o : operation) (st : state) :
  (length (selectedCoins st) ≤ 5)%nat →
  (length (selectedCoins (changed o st)) ≤ 5)%nat.
Proof.
  intros Hlen. destruct o as [id|id|b|tok]; simpl; [|by etrans; [apply without_length|]|done..].
  unfold toggled. destruct (includes id _).
  - simpl. by etrans; [apply without_length|].
  - destruct (length _ <? 5)%nat eqn:E; [|done].
    apply Nat.ltb_lt in E. simpl. rewrite length_app. simpl. lia.
Qed.

Lemma changed_NoDup (o : operation) (st : state) :
  NoDup (selectedCoins st) → NoDup (selectedCoins (changed o st)).
Proof.
  intros Hnd. destruct o as [id|id|b|tok]; simpl; [|by apply without_NoDup|done..].
  unfold toggled. destruct (includes id _) eqn:Hin.
  - simpl. by apply without_NoDup.
  - destruct (length _ <? 5)%nat; [|done]. simpl.
    apply includes_false in Hin. apply NoDup_app. split_and!; [done| |apply NoDup_singleton].
    intros x Hx ->%list_elem_of_singleton. done.
Qed.

(** C1. For every sequence of operations run from an empty Selection Set,
    the Selection Set has at most five members and no identifier twice.  As
    every prefix of a sequence is a sequence, this holds at every point in
    between as well. *)
Theorem selection_bounded_and_duplicate_free (st : state) (ops : list operation) :
  selectedCoins st = [] →
  (length (selectedCoins (exec_all ops st)) ≤ 5)%nat
  ∧ NoDup (selectedCoins (exec_all ops st)).
Proof.
  intros Hempty.
  assert (Hinv : (length (selectedCoins st) ≤ 5)%nat ∧ NoDup (selectedCoins st)).
  { rewrite Hempty. split; [simpl; lia|apply NoDup_nil_2]. }
  clear Hempty. revert st Hinv. unfold exec_all.
  induction ops as [|o ops IH]; intros st [Hlen Hnd]; [done|].
  simpl. apply IH. rewrite selectedCoins_exec.
  split; [by apply changed_bounded|by apply changed_NoDup].
Qed.

Lemma selection_bounded_and_duplicate_free_witness :
  let ops := map Toggle (five_ids ++ ["cardano"; "bitcoin"; "bitcoin"])
             ++ [Remove "tether"] in
  (length (selectedCoins (exec_all ops fresh_page)) ≤ 5)%nat
  ∧ NoDup (selectedCoins (exec_all ops fresh_page)).
Proof.
  apply (selection_bounded_and_duplicate_free fresh_page). reflexivity.
Defined.

(** C10. Removing [id], through [removeCoin] or through [toggleCoin] when
    [id] is selected, leaves no occurrence of [id] and keeps the other
    identifiers in their order: the result is the largest sublist of the
    Selection Set that avoids [id].  Removing bitcoin from bitcoin, ethereum
    leaves ethereum. *)
Theorem removal_deletes_every_occurrence (st : state) (id : string) :
  let before := selectedCoins st in
  let kept := selectedCoins (exec (Remove id) st) in
  (Str id ∉ kept)
  ∧ (kept `sublist_of` before)
  ∧ (∀ l, l `sublist_of` before → Str id ∉ l → l `sublist_of` kept)
  ∧ (includes id before = true → selectedCoins (exec (Toggle id) st) = kept)
  ∧ (∀ st', selectedCoins st' = [Str "bitcoin"; Str "ethereum"] →
            selectedCoins (exec (Remove "bitcoin") st') = [Str "ethereum"]).
Proof.
  cbv zeta. rewrite !selectedCoins_exec. simpl. split_and!.
  - intros Hin. apply elem_of_without in Hin as [_ Hin]. done.
  - apply without_sublist.
  - apply without_greatest.
  - intros Hin. unfold toggled. by rewrite Hin.
  - intros st' Hst'. rewrite selectedCoins_exec. simpl. by rewrite Hst'.
Qed.

Lemma removal_deletes_every_occurrence_witness :
  selectedCoins (exec (Toggle "bitcoin") two_selected)
  = selectedCoins (exec (Remove "bitcoin") two_selected)
  ∧ selectedCoins (exec (Remove "bitcoin") two_selected) = [Str "ethereum"].
Proof.
  split.
  - apply (removal_deletes_every_occurrence two_selected "bitcoin"). reflexivity.
  - apply (removal_deletes_every_occurrence two_selected "bitcoin"). reflexivity.
Defined.

(** ** Toggling twice *)

Lemma alerts_toggled (id : string) (st : state) :
  alerts (toggled id st)
  = if includes id (selectedCoins st) then alerts st
    else if (length (selectedCoins st) <? 5)%nat then alerts st
    else alerts st ++ [capacity_notice].
Proof.
  unfold toggled. destruct (includes _ _); [done|]. by destruct (_ <? _)%nat.
Qed.

(** A list of alerts is never equal to itself with notices added. *)
Ltac longer H :=
  exfalso; apply (f_equal length) in H; rewrite ?length_app in H;
  simpl in H; lia.

Lemma selectedCoins_toggled (id : string) (st : state) :
  selectedCoins (toggled id st)
  = if includes id (selectedCoins st) then without id (selectedCoins st)
    else if (length (selectedCoins st) <? 5)%nat then selectedCoins st ++ [Str id]
    else selectedCoins st.
Proof.
  unfold toggled. destruct (includes _ _); [done|]. by destruct (_ <? _)%nat.
Qed.

Lemma includes_without (id : string) (l : list value) :
  includes id (without id l) = false.
Proof.
  apply includes_false. intros Hx. apply elem_of_without in Hx as [_ Hx]. done.
Qed.

Lemma includes_snoc (id : string) (l : list value) :
  includes id (l ++ [Str id]) = true.
Proof.
  apply includes_true, elem_of_app. right. by apply list_elem_of_singleton.
Qed.

Lemma without_snoc (id : string) (l : list value) :
  includes id l = false → without id (l ++ [Str id]) = l.
Proof.
  intros Hin. rewrite without_app, without_absent by by apply includes_false.
  simpl. rewrite String.eqb_refl. simpl. by rewrite app_nil_r.
Qed.

(** C3, as stated, fails: with bitcoin and ethereum selected, toggling
    bitcoin twice raises no capacity notice and yet leaves ethereum, bitcoin,
    which is another sequence. *)
Lemma toggle_twice_reorders :
  ¬ (∀ (st : state) (id : string),
       in_fragment st = true → NoDup (selectedCoins st) →
       (length (selectedCoins st) ≤ 5)%nat →
       alerts (exec (Toggle id) (exec (Toggle id) st)) = alerts st →
       selectedCoins (exec (Toggle id) (exec (Toggle id) st)) = selectedCoins st).
Proof.
  intros Hclaim.
  specialize (Hclaim two_selected "bitcoin").
  rewrite !selectedCoins_exec, !alerts_exec in Hclaim.
  assert (H : [Str "ethereum"; Str "bitcoin"] = [Str "bitcoin"; Str "ethereum"]).
  { apply Hclaim.
    - reflexivity.
    - apply NoDup_cons. split; [|apply NoDup_singleton].
      by intros ?%list_elem_of_singleton.
    - simpl. lia.
    - reflexivity. }
  discriminate H.
Qed.

(** C3, amended. On a duplicate-free Selection Set, toggling [id] twice with
    no capacity notice gives back the same members.  The sequence itself is
    restored when [id] was not selected before; when it was, [id] has moved to
    the end. *)
Theorem toggle_twice_same_members (st : state) (id : string) :
  NoDup (selectedCoins st) →
  alerts (exec (Toggle id) (exec (Toggle id) st)) = alerts st →
  let twice := selectedCoins (exec (Toggle id) (exec (Toggle id) st)) in
  twice ≡ₚ selectedCoins st
  ∧ (includes id (selectedCoins st) = false → twice = selectedCoins st)
  ∧ (includes id (selectedCoins st) = true →
     twice = without id (selectedCoins st) ++ [Str id]).
Proof.
  intros Hnd Hquiet. cbv zeta.
  rewrite !alerts_exec in Hquiet. rewrite !selectedCoins_exec.
  cbn [changed] in *.
  rewrite (alerts_toggled id (exec _ _)), alerts_exec in Hquiet.
  rewrite (selectedCoins_toggled id (exec _ _)).
  rewrite selectedCoins_exec in *. cbn [changed] in *.
  rewrite alerts_toggled, selectedCoins_toggled in *.
  destruct (includes id (selectedCoins st)) eqn:Hin.
  - (* selected before: removed, then put at the end *)
    rewrite includes_without in *.
    destruct (length (without id (selectedCoins st)) <? 5)%nat;
      [|longer Hquiet].
    split_and!; [|done..].
    apply without_Permutation; [done|by apply includes_true].
  - (* not selected before: put at the end, then removed *)
    destruct (length (selectedCoins st) <? 5)%nat eqn:Hlen.
    + rewrite includes_snoc, without_snoc by done. done.
    + rewrite Hin, Hlen in Hquiet. longer Hquiet.
Qed.

Lemma toggle_twice_same_members_witness :
  selectedCoins (exec (Toggle "bitcoin") (exec (Toggle "bitcoin") two_selected))
  ≡ₚ selectedCoins two_selected.
Proof.
  apply (toggle_twice_same_members two_selected "bitcoin").
  - apply NoDup_cons. split; [|apply NoDup_singleton].
    by intros ?%list_elem_of_singleton.
  - reflexivity.
Defined.

(** ** Persistence *)

Lemma localStorage_changed (o : operation) (st : state) :
  localStorage (exec o st) = persisted (changed o st).
Proof. unfold exec. by destruct (perform_eq o st) as [r ->]. Qed.

Lemma in_fragment_iff (st : state) :
  in_fragment st = true
  ↔ supported (Arr (selectedCoins st)) = true
    ∧ supported (Obj (userPrefs st)) = true.
Proof. unfold in_fragment. apply andb_true_iff. Qed.

Lemma parse_item_persisted_selectedCoins (st : state) :
  supported (Arr (selectedCoins st)) = true →
  parse_item (persisted st) "selectedCoins" = Ok (Arr (selectedCoins st)).
Proof.
  intros Hsel. unfold parse_item, persisted.
  rewrite lookup_insert_ne by done. rewrite lookup_insert_eq.
  by apply parse_stringify.
Qed.

Lemma parse_item_persisted_userPrefs (st : state) :
  supported (Obj (userPrefs st)) = true →
  parse_item (persisted st) "userPrefs" = Ok (Obj (userPrefs st)).
Proof.
  intros Hp. unfold parse_item, persisted.
  rewrite lookup_insert_eq. by apply parse_stringify.
Qed.

(** Loading what [updateLocal] wrote gives back the two variables. *)
Lemma load_persisted (st : state) :
  in_fragment st = true →
  load (persisted st) = Ok (selectedCoins st, userPrefs st).
Proof.
  intros [Hsel Hprefs]%in_fragment_iff. unfold load.
  rewrite parse_item_persisted_selectedCoins by done.
  rewrite parse_item_persisted_userPrefs by done. reflexivity.
Qed.

Lemma without_supported (id : string) (l : list value) :
  forallb supported l = true → forallb supported (without id l) = true.
Proof.
  rewrite !forallb_forall. intros Hl x Hx.
  apply Hl. unfold without in Hx. by apply filter_In in Hx as [? _].
Qed.

(** Every operation keeps the state in the fragment. *)
Lemma changed_in_fragment (o : operation) (st : state) :
  in_fragment st = true → in_fragment (changed o st) = true.
Proof.
  rewrite !in_fragment_iff. intros [Hsel Hprefs].
  destruct o as [id|id|b|tok]; cbn [changed].
  - rewrite selectedCoins_toggled. split.
    + cbn [supported] in *. destruct (includes id _).
      * by apply without_supported.
      * destruct (_ <? _)%nat; [|done]. by apply forallb_snoc.
    + unfold toggled.
      by repeat match goal with |- context [if ?c then _ else _] => destruct c end.
  - split; [|done]. cbn [supported] in *. by apply without_supported.
  - split; [done|]. by apply set_prop_supported.
  - split; [done|]. by apply set_prop_supported.
Qed.

Lemma exec_in_fragment (o : operation) (st : state) :
  in_fragment st = true → in_fragment (exec o st) = true.
Proof.
  intros Hst. apply (changed_in_fragment o) in Hst.
  apply in_fragment_iff in Hst as [Hsel Hprefs]. apply in_fragment_iff.
  by rewrite selectedCoins_exec, userPrefs_exec.
Qed.


(** C2. After every operation of the state store, parsing what is stored
    under the two keys gives back the Selection Set and the Preferences held
    in memory, and so does loading the storage anew; the state stays in the
    fragment, so this holds after every further operation as well.  Toggling
    bitcoin on an empty Selection Set stores the text of the one-element
    array. *)
Theorem storage_round_trip (st : state) (o : operation) :
  in_fragment st = true →
  let st' := exec o st in
  parse_item (localStorage st') "selectedCoins" = Ok (Arr (selectedCoins st'))
  ∧ parse_item (localStorage st') "userPrefs" = Ok (Obj (userPrefs st'))
  ∧ load (localStorage st') = Ok (selectedCoins st', userPrefs st')
  ∧ in_fragment st' = true
  ∧ (selectedCoins st = [] →
     localStorage (exec (Toggle "bitcoin") st) !! "selectedCoins"
     = Some ("[" +:+ String dquote "bitcoin" +:+ String dquote "]")).
Proof.
  intros Hst. cbv zeta.
  pose proof (exec_in_fragment o st Hst) as Hst'.
  pose proof Hst' as [Hsel Hprefs]%in_fragment_iff.
  rewrite localStorage_exec. split_and!.
  - by apply parse_item_persisted_selectedCoins.
  - by apply parse_item_persisted_userPrefs.
  - by apply load_persisted.
  - done.
  - intros Hempty. rewrite localStorage_changed. unfold persisted.
    rewrite lookup_insert_ne by done. rewrite lookup_insert_eq.
    cbn [changed]. rewrite selectedCoins_toggled, Hempty. reflexivity.
Qed.

Lemma storage_round_trip_witness :
  let st' := exec (SetSortOrder "volume_desc") two_selected in
  load (localStorage st') = Ok (selectedCoins st', userPrefs st')
  ∧ localStorage (exec (Toggle "bitcoin") fresh_page) !! "selectedCoins"
    = Some ("[" +:+ String dquote "bitcoin" +:+ String dquote "]").
Proof.
  split.
  - apply (storage_round_trip two_selected (SetSortOrder "volume_desc")).
    reflexivity.
  - apply (storage_round_trip fresh_page (Toggle "bitcoin")); reflexivity.
Defined.

(** C4, as stated, fails: the notice does not abort the operation.  With
    five coins selected and nothing stored, toggling cardano shows the
    notice and then goes on as every toggle does: both keys are written to the
    storage and a request is sent.  So the state after it is not the state
    with the notice added and nothing else. *)
Lemma toggle_at_capacity_not_aborted :
  (let st' := exec (Toggle "cardano") five_selected in
   length (selectedCoins five_selected) = 5%nat
   ∧ includes "cardano" (selectedCoins five_selected) = false
   ∧ alerts st' = [capacity_notice]
   ∧ localStorage five_selected = ∅
   ∧ is_Some (localStorage st' !! "selectedCoins")
   ∧ is_Some (localStorage st' !! "userPrefs")
   ∧ requests five_selected = []
   ∧ requests st' = [request_for "market_cap_desc"])
  ∧ ¬ (∀ (st : state) (id : string),
         in_fragment st = true → length (selectedCoins st) = 5%nat →
         includes id (selectedCoins st) = false →
         exec (Toggle id) st
         = with_alerts (alerts st ++ [capacity_notice]) st).
Proof.
  split.
  - cbv zeta. split_and!; try reflexivity.
    + by eexists.
    + by eexists.
  - intros Hclaim.
    specialize (Hclaim five_selected "cardano" eq_refl eq_refl eq_refl).
    apply (f_equal requests) in Hclaim. discriminate Hclaim.
Qed.

(** C4, amended. Toggling a sixth identifier shows the capacity notice as
    its one alert and leaves the Selection Set and the Preferences as they
    were, in memory and in what the storage decodes to.  The operation is not
    aborted: it completes, after the notice it writes both keys again from
    the unchanged variables and calls [loadData], which sends the request for
    the sort order.  The storage is the same storage when it was up to date
    before. *)
Theorem toggle_at_capacity (st : state) (id : string) :
  in_fragment st = true →
  length (selectedCoins st) = 5%nat →
  includes id (selectedCoins st) = false →
  let st' := exec (Toggle id) st in
  fst (toggleCoin id st) = Ok tt
  ∧ alerts st' = alerts st ++ [capacity_notice]
  ∧ selectedCoins st' = selectedCoins st
  ∧ userPrefs st' = userPrefs st
  ∧ parse_item (localStorage st') "selectedCoins" = Ok (Arr (selectedCoins st))
  ∧ parse_item (localStorage st') "userPrefs" = Ok (Obj (userPrefs st))
  ∧ (localStorage st = persisted st → localStorage st' = localStorage st)
  ∧ localStorage st' = persisted st
  ∧ st' = snd (spawn loadData
                 (with_localStorage (persisted st)
                    (with_alerts (alerts st ++ [capacity_notice]) st)))
  ∧ (∀ order,
       template_value (get_prop "sortOrder" (userPrefs st)) = Ok order →
       requests st' = requests st ++ [request_for order]).
Proof.
  intros [Hsel Hprefs]%in_fragment_iff Hlen Hin. cbv zeta.
  assert (Hch : changed (Toggle id) st
                = with_alerts (alerts st ++ [capacity_notice]) st).
  { simpl. unfold toggled. by rewrite Hin, Hlen. }
  rewrite alerts_exec, selectedCoins_exec, userPrefs_exec, localStorage_changed.
  rewrite Hch. split_and!; try done.
  - change (toggleCoin id st) with (perform (Toggle id) st).
    by destruct (perform_eq (Toggle id) st) as [r ->].
  - by apply (parse_item_persisted_selectedCoins (with_alerts _ st)).
  - by apply (parse_item_persisted_userPrefs (with_alerts _ st)).
  - unfold exec. by rewrite perform_spawn, Hch.
  - intros order Horder. unfold exec. rewrite perform_spawn, Hch, spawn_snd.
    by rewrite (loadData_order _ order).
Qed.

Lemma toggle_at_capacity_witness :
  let st' := exec (Toggle "cardano") five_selected in
  alerts st' = [capacity_notice]
  ∧ selectedCoins st' = map Str five_ids
  ∧ requests st' = [request_for "market_cap_desc"].
Proof.
  pose proof (toggle_at_capacity five_selected "cardano") as H.
  cbv zeta in *. split_and!; [apply H; reflexivity..|].
  apply (proj2 (proj2 (proj2 (proj2 (proj2 (proj2 (proj2 (proj2 (proj2
           (H eq_refl eq_refl eq_refl)))))))))).
  reflexivity.
Defined.

(** ** The request of a fetch cycle *)

Lemma get_set_prop (k : string) (v : value) (o : list (string * value)) :
  get_prop k (set_prop k v o) = Some v.
Proof.
  induction o as [|[k' v'] o IH]; simpl.
  - by rewrite String.eqb_refl.
  - destruct (String.eqb k' k) eqn:E; simpl; [by rewrite String.eqb_refl|].
    by rewrite E.
Qed.

Lemma loadData_token (st : state) (token : string) :
  get_prop "sortOrder" (userPrefs st) = Some (Str token) →
  loadData st = (Ok tt, with_requests (requests st ++ [request_for token]) st).
Proof. intros Hp. rewrite loadData_eq, Hp. reflexivity. Qed.

Lemma on_sort_change_eq (st : state) (token : string) :
  on_sort_change token st
  = (Ok tt,
     with_requests (requests st ++ [request_for token])
       (with_localStorage (persisted (changed (SetSortOrder token) st))
          (changed (SetSortOrder token) st))).
Proof.
  unfold on_sort_change, mbind, M_bind, get, modify.
  rewrite updateLocal_eq. unfold spawn.
  rewrite (loadData_token _ token); [done|].
  cbn [userPrefs with_localStorage with_userPrefs]. apply get_set_prop.
Qed.

(** C7. With the sort-order token [token] in the Preferences, [loadData]
    sends exactly one request, whose query reads vs_currency=usd,
    order=[token], per_page=50, page=1.  Changing the sort order to
    volume_desc sends such a request with order=volume_desc at once, and so
    does every [loadData] that follows it. *)
Theorem fetch_query (st : state) (token : string) :
  get_prop "sortOrder" (userPrefs st) = Some (Str token) →
  loadData st = (Ok tt, with_requests (requests st ++ [request_for token]) st)
  ∧ request_for token
    = API_ENDPOINT +:+ "?vs_currency=usd&order=" +:+ token
      +:+ "&per_page=50&page=1"
  ∧ (let st' := exec (SetSortOrder "volume_desc") st in
     requests st' = requests st ++ [request_for "volume_desc"]
     ∧ loadData st'
       = (Ok tt, with_requests (requests st' ++ [request_for "volume_desc"]) st')).
Proof.
  intros Hp. cbv zeta. split_and!.
  - by apply loadData_token.
  - reflexivity.
  - unfold exec. cbn [perform]. rewrite on_sort_change_eq. reflexivity.
  - apply loadData_token. rewrite userPrefs_exec. apply get_set_prop.
Qed.

Lemma fetch_query_witness :
  requests (snd (loadData fresh_page))
  = ["https://api.coingecko.com/api/v3/coins/markets?vs_currency=usd&order=market_cap_desc&per_page=50&page=1"]
  ∧ requests (exec (SetSortOrder "volume_desc") fresh_page)
    = ["https://api.coingecko.com/api/v3/coins/markets?vs_currency=usd&order=volume_desc&per_page=50&page=1"].
Proof.
  pose proof (fetch_query fresh_page "market_cap_desc" eq_refl) as (H1 & _ & H2 & _).
  split; [by rewrite H1|exact H2].
Defined.

(** * Rendering *)

Section RenderingFacts.
Context `{Host}.

Lemma change_24h_hidden (prefs : list (string * value)) (coin : Coin) :
  truthy (get_prop "show24h" prefs) = false → change_24h prefs coin = Ok "".
Proof. intros Hoff. unfold change_24h. by rewrite Hoff. Qed.

Lemma crypto_card_hidden (prefs : list (string * value)) (index : nat)
    (coin : Coin) (change : option number) :
  truthy (get_prop "show24h" prefs) = false →
  crypto_card prefs index (with_change change coin) = crypto_card prefs index coin
  ∧ ∃ div, crypto_card prefs index coin = Ok div.
Proof.
  intros Hoff. unfold crypto_card. rewrite !change_24h_hidden by done.
  split; [done|by eexists].
Qed.

Lemma selected_card_hidden (prefs : list (string * value)) (coin : Coin)
    (change : option number) :
  truthy (get_prop "show24h" prefs) = false →
  selected_card prefs (with_change change coin) = selected_card prefs coin
  ∧ ∃ div, selected_card prefs coin = Ok div.
Proof.
  intros Hoff. unfold selected_card. rewrite !change_24h_hidden by done.
  split; [done|by eexists].
Qed.

Lemma forEach_cons (coin : Coin) (coins : list Coin) (index : nat)
    (body : Coin → nat → M unit) (st : state) :
  forEach index (coin :: coins) body st
  = match body coin index st with
    | (Ok _, st') => forEach (S index) coins body st'
    | (Throw e, st') => (Throw e, st')
    | (Unsupported, st') => (Unsupported, st')
    end.
Proof. reflexivity. Qed.

Lemma append_crypto_card_eq (coin : Coin) (index : nat) (st : state) :
  append_crypto_card coin index st
  = match crypto_card (userPrefs st) index coin with
    | Ok div => (Ok tt, with_cryptoContainer (cryptoContainer st ++ [div]) st)
    | Throw e => (Throw e, st)
    | Unsupported => (Unsupported, st)
    end.
Proof.
  unfold append_crypto_card, mbind, M_bind, get, lift, modify.
  by destruct (crypto_card _ _ _).
Qed.

Lemma append_selected_card_eq (coin : Coin) (index : nat) (st : state) :
  append_selected_card coin index st
  = match selected_card (userPrefs st) coin with
    | Ok div => (Ok tt, with_selectedContainer (selectedContainer st ++ [div]) st)
    | Throw e => (Throw e, st)
    | Unsupported => (Unsupported, st)
    end.
Proof.
  unfold append_selected_card, mbind, M_bind, get, lift, modify.
  by destruct (selected_card _ _).
Qed.

(** The two loops, with the 24h change hidden: every card is built, none
    depends on the change, and only the container they fill is touched. *)
Lemma forEach_crypto_hidden (chs : Coin → option number) (coins : list Coin) :
  ∀ (index : nat) (st : state),
    truthy (get_prop "show24h" (userPrefs st)) = false →
    forEach index (map (λ c, with_change (chs c) c) coins) append_crypto_card st
    = forEach index coins append_crypto_card st
    ∧ ∃ divs, forEach index coins append_crypto_card st
              = (Ok tt, with_cryptoContainer (cryptoContainer st ++ divs) st).
Proof.
  induction coins as [|coin coins IH]; intros index st Hoff.
  - split; [done|]. exists []. rewrite app_nil_r. by destruct st.
  - cbn [map]. rewrite !forEach_cons, !append_crypto_card_eq.
    destruct (crypto_card_hidden (userPrefs st) index coin (chs coin) Hoff)
      as [-> [div ->]].
    set (st1 := with_cryptoContainer (cryptoContainer st ++ [div]) st).
    destruct (IH (S index) st1 Hoff) as [-> [divs ->]].
    split; [done|]. exists (div :: divs).
    subst st1. cbn. by rewrite <- app_assoc.
Qed.

Lemma forEach_selected_hidden (chs : Coin → option number) (coins : list Coin) :
  ∀ (index : nat) (st : state),
    truthy (get_prop "show24h" (userPrefs st)) = false →
    forEach index (map (λ c, with_change (chs c) c) coins) append_selected_card st
    = forEach index coins append_selected_card st
    ∧ ∃ divs, forEach index coins append_selected_card st
              = (Ok tt, with_selectedContainer (selectedContainer st ++ divs) st).
Proof.
  induction coins as [|coin coins IH]; intros index st Hoff.
  - split; [done|]. exists []. rewrite app_nil_r. by destruct st.
  - cbn [map]. rewrite !forEach_cons, !append_selected_card_eq.
    destruct (selected_card_hidden (userPrefs st) coin (chs coin) Hoff)
      as [-> [div ->]].
    set (st1 := with_selectedContainer (selectedContainer st ++ [div]) st).
    destruct (IH (S index) st1 Hoff) as [-> [divs ->]].
    split; [done|]. exists (div :: divs).
    subst st1. cbn. by rewrite <- app_assoc.
Qed.

Lemma filter_with_change (chs : Coin → option number) (sel : list value)
    (coins : list Coin) :
  List.filter (λ c, includes (id c) sel) (map (λ c, with_change (chs c) c) coins)
  = map (λ c, with_change (chs c) c) (List.filter (λ c, includes (id c) sel) coins).
Proof.
  induction coins as [|coin coins IH]; [done|]. cbn [map List.filter id with_change].
  destruct (includes (id coin) sel); cbn [map]; by rewrite IH.
Qed.

(** C9. While the Preferences hide the 24h change (the flag is false, or
    absent, or any other falsy value), both renderers complete and what they
    render does not depend on the 24h change of any coin: replacing the
    changes by arbitrary others, absent ones included, gives the same page. *)
Theorem hidden_change_not_rendered (coins : list Coin)
    (chs : Coin → option number) (st : state) :
  truthy (get_prop "show24h" (userPrefs st)) = false →
  let coins' := map (λ c, with_change (chs c) c) coins in
  renderCryptoList coins' st = renderCryptoList coins st
  ∧ fst (renderCryptoList coins st) = Ok tt
  ∧ renderSelected coins' st = renderSelected coins st
  ∧ fst (renderSelected coins st) = Ok tt.
Proof.
  intros Hoff. cbv zeta.
  assert (Hcrypto :
    renderCryptoList (map (λ c, with_change (chs c) c) coins) st
    = renderCryptoList coins st
    ∧ fst (renderCryptoList coins st) = Ok tt).
  { unfold renderCryptoList, mbind, M_bind, modify.
    destruct (forEach_crypto_hidden chs coins 0 (with_cryptoContainer [] st) Hoff)
      as [-> [divs ->]]. done. }
  assert (Hselected :
    renderSelected (map (λ c, with_change (chs c) c) coins) st
    = renderSelected coins st
    ∧ fst (renderSelected coins st) = Ok tt).
  { unfold renderSelected, mbind, M_bind, modify, get.
    rewrite filter_with_change.
    cbn [selectedCoins with_selectedContainer].
    destruct (forEach_selected_hidden chs
                (List.filter (λ c, includes (id c) (selectedCoins st)) coins)
                0 (with_selectedContainer [] st) Hoff)
      as [-> [divs ->]]. done. }
  tauto.
Qed.

End RenderingFacts.

Lemma hidden_change_not_rendered_witness :
  let coins := [listed "bitcoin" (Some 2); listed "ethereum" None] in
  let coins' := [listed "bitcoin" None; listed "ethereum" (Some 7)] in
  @renderCryptoList integer_host coins' two_selected
  = @renderCryptoList integer_host coins two_selected
  ∧ @renderSelected integer_host coins' two_selected
    = @renderSelected integer_host coins two_selected.
Proof.
  pose proof (@hidden_change_not_rendered integer_host
                [listed "bitcoin" (Some 2); listed "ethereum" None]
                (λ c, match price_change_percentage_24h c with
                      | Some _ => None
                      | None => Some 7
                      end)
                two_selected eq_refl) as (H1 & _ & H2 & _).
  split; [exact H1|exact H2].
Defined.

(** * Start-up *)

Lemma parse_item_absent (ls : gmap string string) (key : string) :
  ls !! key = None → parse_item ls key = Ok Null.
Proof. intros Hk. unfold parse_item. by rewrite Hk. Qed.

(** Start-up completes exactly when the two variables load and the sort
    order has a string form; it has then sent the one request for it. *)
Lemma startup_eq (ls : gmap string string) (crypto selected : list element)
    (disabled : bool) (sel : list value) (prefs : list (string * value))
    (order : string) :
  load ls = Ok (sel, prefs) →
  template_value (get_prop "sortOrder" prefs) = Ok order →
  startup ls crypto selected disabled
  = Ok {| selectedCoins := sel; userPrefs := prefs; localStorage := ls;
          alerts := []; requests := [request_for order];
          cryptoContainer := crypto; selectedContainer := selected;
          compareBtn_disabled := disabled |}.
Proof.
  intros Hload Horder. unfold startup. rewrite Hload. cbn [obind fst snd].
  rewrite Horder. cbn [obind]. unfold spawn. rewrite loadData_eq.
  cbn [userPrefs]. by rewrite Horder.
Qed.

Lemma startup_Ok (ls : gmap string string) (crypto selected : list element)
    (disabled : bool) (st : state) :
  startup ls crypto selected disabled = Ok st →
  ∃ sel prefs order,
    load ls = Ok (sel, prefs)
    ∧ template_value (get_prop "sortOrder" prefs) = Ok order
    ∧ st = {| selectedCoins := sel; userPrefs := prefs; localStorage := ls;
              alerts := []; requests := [request_for order];
              cryptoContainer := crypto; selectedContainer := selected;
              compareBtn_disabled := disabled |}.
Proof.
  intros Hst. destruct (load ls) as [[sel prefs]| |] eqn:Hload;
    [|unfold startup in Hst; rewrite Hload in Hst; done..].
  destruct (template_value (get_prop "sortOrder" prefs)) as [order|e|] eqn:Horder;
    [|unfold startup in Hst; rewrite Hload in Hst; cbn [obind fst snd] in Hst;
      rewrite Horder in Hst; done..].
  rewrite (startup_eq ls crypto selected disabled _ _ _ Hload Horder) in Hst.
  exists sel, prefs, order. by simplify_eq.
Qed.

(** A text that raises in one of the two declarations stops the script. *)
Lemma startup_Throw_selectedCoins (ls : gmap string string)
    (crypto selected : list element) (disabled : bool) (e : exn) :
  parse_item ls "selectedCoins" = Throw e →
  load ls = Throw e ∧ startup ls crypto selected disabled = Throw e.
Proof. intros He. unfold startup, load. by rewrite He. Qed.

Lemma startup_Throw_userPrefs (ls : gmap string string)
    (crypto selected : list element) (disabled : bool) (sc : value) (e : exn) :
  parse_item ls "selectedCoins" = Ok sc →
  parse_item ls "userPrefs" = Throw e →
  load ls = Throw e ∧ startup ls crypto selected disabled = Throw e.
Proof. intros Hsc He. unfold startup, load. by rewrite Hsc, He. Qed.


Lemma absent_storage_defaults_prefs (ls : gmap string string)
    (sel : list value) (prefs : list (string * value)) :
  load ls = Ok (sel, prefs) → ls !! "userPrefs" = None → prefs = default_prefs.
Proof.
  unfold load. intros Hload Hnone.
  rewrite (parse_item_absent _ "userPrefs" Hnone) in Hload.
  destruct (parse_item ls "selectedCoins") as [sc| |]; [|done..].
  cbn [obind ToBoolean] in Hload.
  destruct (if ToBoolean sc then _ else _); by simplify_eq/=.
Qed.

Lemma absent_storage_defaults_selection (ls : gmap string string)
    (sel : list value) (prefs : list (string * value)) :
  load ls = Ok (sel, prefs) → ls !! "selectedCoins" = None → sel = [].
Proof.
  unfold load. intros Hload Hnone.
  rewrite (parse_item_absent _ _ Hnone) in Hload. cbn [obind ToBoolean] in Hload.
  destruct (parse_item ls "userPrefs") as [up| |]; [|done..].
  cbn [obind] in Hload.
  destruct (if ToBoolean up then _ else _); by simplify_eq/=.
Qed.

(** C5, as stated, fails: text under selectedCoins that is not JSON is not
    replaced by the default; [JSON.parse] raises a SyntaxError and the script
    stops there. *)
Lemma malformed_storage_not_recovered :
  malformed_storage !! "selectedCoins" = Some "[bitcoin]"
  ∧ JSON.parse "[bitcoin]" = Throw SyntaxError
  ∧ load malformed_storage = Throw SyntaxError
  ∧ startup malformed_storage [] [] true = Throw SyntaxError.
Proof. vm_compute. done. Qed.

(** C5, amended. Content that is absent under a key is replaced by that
    key's default, the empty Selection Set or the Preferences with the 24h
    change hidden and the sort order market_cap_desc; with both keys absent
    the script starts without failure; and starting never shows a notice.
    Content that is not a well-formed JSON text is not recovered: whatever
    the text, under selectedCoins, or under userPrefs once the selection has
    been read, [JSON.parse] raises a SyntaxError and the script stops at that
    declaration. *)
Theorem absent_storage_defaults (ls : gmap string string)
    (crypto selected : list element) (disabled : bool) :
  (∀ sel prefs, load ls = Ok (sel, prefs) →
     (ls !! "selectedCoins" = None → sel = [])
     ∧ (ls !! "userPrefs" = None → prefs = default_prefs))
  ∧ (ls !! "selectedCoins" = None → ls !! "userPrefs" = None →
     ∃ st, startup ls crypto selected disabled = Ok st
           ∧ selectedCoins st = [] ∧ userPrefs st = default_prefs)
  ∧ (∀ st, startup ls crypto selected disabled = Ok st → alerts st = [])
  ∧ (∀ text, ls !! "selectedCoins" = Some text → well_formed text = false →
       JSON.parse text = Throw SyntaxError
       ∧ load ls = Throw SyntaxError
       ∧ startup ls crypto selected disabled = Throw SyntaxError)
  ∧ (∀ text sc, parse_item ls "selectedCoins" = Ok sc →
       ls !! "userPrefs" = Some text → well_formed text = false →
       JSON.parse text = Throw SyntaxError
       ∧ load ls = Throw SyntaxError
       ∧ startup ls crypto selected disabled = Throw SyntaxError).
Proof.
  split_and!.
  - intros sel prefs Hload. split; intros Hnone.
    + by eapply absent_storage_defaults_selection.
    + by eapply absent_storage_defaults_prefs.
  - intros Hsel Hprefs.
    assert (Hload : load ls = Ok ([], default_prefs)).
    { unfold load. by rewrite !parse_item_absent. }
    rewrite (startup_eq ls crypto selected disabled _ _ "market_cap_desc" Hload)
      by done.
    by eexists.
  - by intros st (sel & prefs & order & _ & _ & ->)%startup_Ok.
  - intros text Htext Hill%parse_ill_formed. split; [done|].
    apply startup_Throw_selectedCoins. unfold parse_item. by rewrite Htext.
  - intros text sc Hsc Htext Hill%parse_ill_formed. split; [done|].
    eapply startup_Throw_userPrefs; [done|]. unfold parse_item. by rewrite Htext.
Qed.

Lemma absent_storage_defaults_witness :
  ∃ st, startup ∅ [] [] true = Ok st
        ∧ selectedCoins st = [] ∧ userPrefs st = default_prefs.
Proof.
  apply (absent_storage_defaults ∅ [] [] true); reflexivity.
Defined.


(** * The scheduler *)

Section SchedulerFacts.
Context `{Host}.

#[local] Instance same_store_refl : Reflexive same_store.
Proof. by intros st. Qed.

#[local] Instance same_store_trans : Transitive same_store.
Proof.
  intros st1 st2 st3 (?&?&?&?) (?&?&?&?). unfold same_store.
  split_and!; congruence.
Qed.

(** A loop whose callback keeps the store keeps it, however it ends. *)
Lemma forEach_same_store (body : Coin → nat → M unit) (coins : list Coin) :
  (∀ coin index st, same_store st (snd (body coin index st))) →
  ∀ index st, same_store st (snd (forEach index coins body st)).
Proof.
  intros Hbody. induction coins as [|coin coins IH]; intros index st; [done|].
  rewrite forEach_cons. specialize (Hbody coin index st).
  destruct (body coin index st) as [[[]| |] st']; [|done..].
  etrans; [exact Hbody|apply IH].
Qed.

Lemma renderCryptoList_same_store (coins : list Coin) (st : state) :
  same_store st (snd (renderCryptoList coins st)).
Proof.
  unfold renderCryptoList, mbind, M_bind, modify.
  etrans; [|apply forEach_same_store]; [done|].
  intros coin index st1. rewrite append_crypto_card_eq.
  by destruct (crypto_card _ _ _).
Qed.

Lemma renderSelected_same_store (coins : list Coin) (st : state) :
  same_store st (snd (renderSelected coins st)).
Proof.
  unfold renderSelected, mbind, M_bind, modify, get.
  match goal with |- context [forEach ?i ?l ?b ?s] =>
    pose proof (forEach_same_store b l) as Hloop;
    specialize (Hloop (λ coin index st1, ltac:(
      rewrite append_selected_card_eq; by destruct (selected_card _ _))) i s);
    destruct (forEach i l b s) as [[[]| |] st1]
  end; done.
Qed.

(** Whenever [renderSelected] completes, the compare button is enabled
    exactly when five coins are selected. *)
Lemma renderSelected_sets_compare_button (coins : list Coin) (st st' : state) :
  renderSelected coins st = (Ok tt, st') →
  compareBtn_disabled st' = negb (length (selectedCoins st) =? 5)%nat.
Proof.
  unfold renderSelected, mbind, M_bind, modify, get.
  match goal with |- context [forEach ?i ?l ?b ?s] =>
    pose proof (forEach_same_store b l) as Hloop;
    specialize (Hloop (λ coin index st1, ltac:(
      rewrite append_selected_card_eq; by destruct (selected_card _ _))) i s);
    destruct (forEach i l b s) as [[[]| |] st1]
  end; [|done..].
  destruct Hloop as (Hsel & _). cbn [snd selectedCoins with_selectedContainer] in Hsel.
  intros [= <-]. cbn. by rewrite Hsel.
Qed.

Lemma loadData_then_same_store (coins : list Coin) (st : state) :
  same_store st (snd (loadData_then coins st)).
Proof.
  unfold loadData_then, mbind, M_bind.
  pose proof (renderCryptoList_same_store coins st) as H1.
  destruct (renderCryptoList coins st) as [[[]| |] st1]; [|done..].
  etrans; [exact H1|apply renderSelected_same_store].
Qed.

(** Timer ticks and responses leave the store as it is; a click on the
    compare button leaves the two variables and the storage as they are. *)
Lemma step_same_store (st : state) (e : event) :
  match e with
  | User _ => True
  | Compare =>
      selectedCoins (step st e) = selectedCoins st
      ∧ userPrefs (step st e) = userPrefs st
      ∧ localStorage (step st e) = localStorage st
  | Tick | Response _ => same_store st (step st e)
  end.
Proof.
  destruct e as [o| | |coins]; [done|..]; unfold step; cbn [handle].
  - unfold on_compare_click.
    unfold mbind, M_bind, get, lift, alert, modify.
    destruct (compareBtn_disabled st); [done|].
    by destruct (join ", " (selectedCoins st)).
  - rewrite spawn_snd, loadData_eq. by destruct (template_value _).
  - rewrite spawn_snd. apply loadData_then_same_store.
Qed.

Lemma get_set_prop_ne (k k' : string) (v : value) (o : list (string * value)) :
  k ≠ k' → get_prop k' (set_prop k v o) = get_prop k' o.
Proof.
  intros Hne. induction o as [|[k0 v0] o IH]; simpl.
  - by apply String.eqb_neq in Hne as ->.
  - destruct (String.eqb k0 k) eqn:E; simpl; [|by rewrite IH].
    apply String.eqb_eq in E as ->.
    by apply String.eqb_neq in Hne as ->.
Qed.



(** Every event keeps the state in the fragment, so every state the page
    reaches lies in it. *)
Lemma step_in_fragment (st : state) (e : event) :
  in_fragment st = true → in_fragment (step st e) = true.
Proof.
  intros Hst. pose proof (step_same_store st e) as Hstep.
  destruct e as [o| | |coins].
  - by apply exec_in_fragment.
  - destruct Hstep as (Hsel & Hprefs & _). unfold in_fragment.
    by rewrite Hsel, Hprefs.
  - destruct Hstep as (Hsel & Hprefs & _). unfold in_fragment.
    by rewrite Hsel, Hprefs.
  - destruct Hstep as (Hsel & Hprefs & _). unfold in_fragment.
    by rewrite Hsel, Hprefs.
Qed.

Lemma run_in_fragment (events : list event) (st : state) :
  in_fragment st = true → in_fragment (run events st) = true.
Proof.
  revert st. unfold run.
  induction events as [|e events IH]; intros st Hst; [done|].
  simpl. by apply IH, step_in_fragment.
Qed.


End SchedulerFacts.


(** * The renderers, card by card *)

Lemma with_cryptoContainer_same (st : state) :
  with_cryptoContainer (cryptoContainer st) st = st.
Proof. by destruct st. Qed.

Lemma with_selectedContainer_same (st : state) :
  with_selectedContainer (selectedContainer st) st = st.
Proof. by destruct st. Qed.

Section CardFacts.
Context `{Host}.

(** A card is built exactly for a renderable coin; otherwise the template
    raises a TypeError. *)
Lemma change_24h_renderable (prefs : list (string * value)) (coin : Coin) :
  renderable prefs coin = true → ∃ text, change_24h prefs coin = Ok text.
Proof.
  unfold renderable, change_24h.
  destruct (price_change_percentage_24h coin), (truthy _); try done; by eexists.
Qed.

Lemma change_24h_unrenderable (prefs : list (string * value)) (coin : Coin) :
  renderable prefs coin = false → change_24h prefs coin = Throw TypeError.
Proof.
  unfold renderable, change_24h.
  by destruct (price_change_percentage_24h coin), (truthy _).
Qed.

Lemma row_class (index : nat) :
  Z_to_string (Z.of_nat (index mod 3))
  = match (index mod 3)%nat with O => "0" | 1%nat => "1" | _ => "2" end.
Proof.
  pose proof (Nat.mod_upper_bound index 3) as Hlt.
  destruct (index mod 3)%nat as [|[|[|n]]]; [done..|lia].
Qed.

Lemma crypto_card_renderable (prefs : list (string * value)) (index : nat)
    (coin : Coin) :
  renderable prefs coin = true →
  ∃ div, crypto_card prefs index coin = Ok div
         ∧ className div
           = "crypto-card row-"
             +:+ match (index mod 3)%nat with O => "0" | 1%nat => "1" | _ => "2" end
         ∧ onclick div = Some (id coin).
Proof.
  intros [text Ht]%change_24h_renderable. unfold crypto_card. rewrite Ht.
  eexists. split; [done|]. cbn [className onclick]. by rewrite row_class.
Qed.

Lemma crypto_card_unrenderable (prefs : list (string * value)) (index : nat)
    (coin : Coin) :
  renderable prefs coin = false → crypto_card prefs index coin = Throw TypeError.
Proof.
  intros Ht%change_24h_unrenderable. unfold crypto_card. by rewrite Ht.
Qed.

Lemma selected_card_renderable (prefs : list (string * value)) (coin : Coin) :
  renderable prefs coin = true →
  ∃ div, selected_card prefs coin = Ok div ∧ className div = "selected-card".
Proof.
  intros [text Ht]%change_24h_renderable. unfold selected_card. rewrite Ht.
  by eexists.
Qed.

Lemma selected_card_unrenderable (prefs : list (string * value)) (coin : Coin) :
  renderable prefs coin = false → selected_card prefs coin = Throw TypeError.
Proof.
  intros Ht%change_24h_unrenderable. unfold selected_card. by rewrite Ht.
Qed.

(** The loops of the two renderers compute [crypto_cards] and
    [selected_cards], and touch nothing but the container they fill. *)
Lemma forEach_crypto_cards (coins : list Coin) (index : nat) (st : state) :
  forEach index coins append_crypto_card st
  = (snd (crypto_cards (userPrefs st) index coins),
     with_cryptoContainer
       (cryptoContainer st ++ fst (crypto_cards (userPrefs st) index coins)) st).
Proof.
  revert index st. induction coins as [|coin coins IH]; intros index st.
  - cbn. by rewrite app_nil_r, with_cryptoContainer_same.
  - rewrite forEach_cons, append_crypto_card_eq. cbn [crypto_cards].
    destruct (crypto_card (userPrefs st) index coin) as [div|e|]; cbn [fst snd].
    + rewrite IH. cbn [userPrefs cryptoContainer with_cryptoContainer].
      by rewrite <- app_assoc.
    + by rewrite app_nil_r, with_cryptoContainer_same.
    + by rewrite app_nil_r, with_cryptoContainer_same.
Qed.

Lemma forEach_selected_cards (coins : list Coin) (index : nat) (st : state) :
  forEach index coins append_selected_card st
  = (snd (selected_cards (userPrefs st) coins),
     with_selectedContainer
       (selectedContainer st ++ fst (selected_cards (userPrefs st) coins)) st).
Proof.
  revert index st. induction coins as [|coin coins IH]; intros index st.
  - cbn. by rewrite app_nil_r, with_selectedContainer_same.
  - rewrite forEach_cons, append_selected_card_eq. cbn [selected_cards].
    destruct (selected_card (userPrefs st) coin) as [div|e|]; cbn [fst snd].
    + rewrite IH. cbn [userPrefs selectedContainer with_selectedContainer].
      by rewrite <- app_assoc.
    + by rewrite app_nil_r, with_selectedContainer_same.
    + by rewrite app_nil_r, with_selectedContainer_same.
Qed.

Lemma renderCryptoList_eq (coins : list Coin) (st : state) :
  renderCryptoList coins st
  = (snd (crypto_cards (userPrefs st) 0 coins),
     with_cryptoContainer (fst (crypto_cards (userPrefs st) 0 coins)) st).
Proof.
  unfold renderCryptoList, mbind, M_bind, modify.
  by rewrite forEach_crypto_cards.
Qed.

Lemma renderSelected_eq (coins : list Coin) (st : state) :
  renderSelected coins st
  = let cards :=
      selected_cards (userPrefs st)
        (List.filter (λ c, includes (id c) (selectedCoins st)) coins) in
    match snd cards with
    | Ok _ =>
        (Ok tt,
         with_compareBtn_disabled (negb (length (selectedCoins st) =? 5)%nat)
           (with_selectedContainer (fst cards) st))
    | Throw e => (Throw e, with_selectedContainer (fst cards) st)
    | Unsupported => (Unsupported, with_selectedContainer (fst cards) st)
    end.
Proof.
  unfold renderSelected, mbind, M_bind, modify, get.
  rewrite forEach_selected_cards. cbv zeta.
  cbn [userPrefs selectedCoins selectedContainer with_selectedContainer app].
  by destruct (snd (selected_cards _ _)) as [[]| |].
Qed.

(** Over renderable coins the loops build one card per coin. *)
Lemma crypto_cards_renderable (prefs : list (string * value))
    (coins : list Coin) (index : nat) :
  Forall (λ c, renderable prefs c = true) coins →
  snd (crypto_cards prefs index coins) = Ok tt
  ∧ length (fst (crypto_cards prefs index coins)) = length coins
  ∧ ∀ i coin, coins !! i = Some coin →
      ∃ div, fst (crypto_cards prefs index coins) !! i = Some div
             ∧ crypto_card prefs (index + i) coin = Ok div.
Proof.
  intros Hall. revert index.
  induction Hall as [|coin coins Hc _ IH]; intros index; [done|].
  cbn [crypto_cards].
  destruct (crypto_card_renderable prefs index coin Hc) as (div & Hdiv & _).
  rewrite Hdiv. cbn [fst snd]. destruct (IH (S index)) as (Hok & Hlen & Hat).
  split_and!; [done|by rewrite !length_cons, Hlen|].
  intros [|i] coin' Hi.
  - simplify_eq/=. exists div. by rewrite Nat.add_0_r.
  - destruct (Hat i coin' Hi) as (div' & ? & ?). exists div'.
    split; [done|]. by replace (index + S i)%nat with (S index + i)%nat by lia.
Qed.

Lemma selected_cards_renderable (prefs : list (string * value))
    (coins : list Coin) :
  Forall (λ c, renderable prefs c = true) coins →
  snd (selected_cards prefs coins) = Ok tt
  ∧ Forall2 (λ coin div, selected_card prefs coin = Ok div)
      coins (fst (selected_cards prefs coins)).
Proof.
  induction 1 as [|coin coins Hc _ [IHok IHall]]; [by split; [|constructor]|].
  cbn [selected_cards].
  destruct (selected_card_renderable prefs coin Hc) as (div & Hdiv & _).
  rewrite Hdiv. cbn [fst snd]. split; [done|]. by constructor.
Qed.

(** At the first coin that is not renderable the loops end with a TypeError,
    the cards of the coins before it built. *)
Lemma crypto_cards_unrenderable (prefs : list (string * value))
    (good : list Coin) (bad : Coin) (rest : list Coin) (index : nat) :
  Forall (λ c, renderable prefs c = true) good →
  renderable prefs bad = false →
  snd (crypto_cards prefs index (good ++ bad :: rest)) = Throw TypeError
  ∧ fst (crypto_cards prefs index (good ++ bad :: rest))
    = fst (crypto_cards prefs index good).
Proof.
  intros Hgood Hbad. revert index.
  induction Hgood as [|coin good Hc _ IH]; intros index.
  - cbn. by rewrite (crypto_card_unrenderable _ _ _ Hbad).
  - cbn [app crypto_cards].
    destruct (crypto_card_renderable prefs index coin Hc) as (div & -> & _).
    cbn [fst snd]. destruct (IH (S index)) as [-> ->]. done.
Qed.

Lemma selected_cards_unrenderable (prefs : list (string * value))
    (coins : list Coin) :
  Exists (λ c, renderable prefs c = false) coins →
  snd (selected_cards prefs coins) = Throw TypeError
  ∧ (length (fst (selected_cards prefs coins)) < length coins)%nat.
Proof.
  induction coins as [|coin coins IH]; intros Hex; [by apply Exists_nil in Hex|].
  cbn [selected_cards]. destruct (renderable prefs coin) eqn:Hc.
  - destruct (selected_card_renderable prefs coin Hc) as (div & -> & _).
    apply Exists_cons in Hex as [Hex|Hex]; [congruence|].
    destruct (IH Hex) as [-> Hlt]. cbn [fst snd length]. split; [done|lia].
  - rewrite (selected_card_unrenderable _ _ Hc). cbn. split; [done|lia].
Qed.



End CardFacts.


Section RenderingProperties.
Context `{Host}.

Lemma loadData_then_eq (coins : list Coin) (st : state) :
  loadData_then coins st
  = match snd (crypto_cards (userPrefs st) 0 coins) with
    | Ok _ =>
        renderSelected coins
          (with_cryptoContainer (fst (crypto_cards (userPrefs st) 0 coins)) st)
    | Throw e =>
        (Throw e,
         with_cryptoContainer (fst (crypto_cards (userPrefs st) 0 coins)) st)
    | Unsupported =>
        (Unsupported,
         with_cryptoContainer (fst (crypto_cards (userPrefs st) 0 coins)) st)
    end.
Proof.
  unfold loadData_then, mbind, M_bind. rewrite renderCryptoList_eq.
  by destruct (snd (crypto_cards _ _ _)) as [[]| |].
Qed.


(** X1. When every coin of the response is renderable (the 24h change is
    hidden, or each coin has one), [renderCryptoList] completes and replaces
    whatever the container held by one card per coin, in the order of the
    response: the card at position [i] is the one built from the coin at [i],
    its class cycles through row-0, row-1, row-2, and a click on it toggles
    that coin.  Nothing but the container changes. *)
Theorem renderCryptoList_cards (coins : list Coin) (st : state) :
  Forall (λ c, renderable (userPrefs st) c = true) coins →
  ∃ divs,
    renderCryptoList coins st = (Ok tt, with_cryptoContainer divs st)
    ∧ length divs = length coins
    ∧ ∀ i coin, coins !! i = Some coin →
        ∃ div, divs !! i = Some div
               ∧ crypto_card (userPrefs st) i coin = Ok div
               ∧ className div
                 = "crypto-card row-"
                   +:+ match (i mod 3)%nat with
                       | O => "0" | 1%nat => "1" | _ => "2"
                       end
               ∧ onclick div = Some (id coin).
Proof.
  intros Hall. exists (fst (crypto_cards (userPrefs st) 0 coins)).
  destruct (crypto_cards_renderable (userPrefs st) coins 0 Hall)
    as (Hok & Hlen & Hat).
  rewrite renderCryptoList_eq, Hok. split_and!; [done..|].
  intros i coin Hi. destruct (Hat i coin Hi) as (div & Hdiv & Hcard).
  rewrite Forall_forall in Hall.
  destruct (crypto_card_renderable (userPrefs st) i coin)
    as (div' & Hd & Hclass & Hclick).
  { apply Hall. by eapply list_elem_of_lookup_2. }
  cbn [Nat.add] in Hcard. rewrite Hd in Hcard. injection Hcard as <-.
  exists div'. by split_and!.
Qed.

(** X2. A coin that is not renderable (the 24h change is shown and the coin
    has none) ends the refresh with a TypeError at its card.  The container
    then holds the cards of the coins listed before it, each built from its
    coin at its index, in their order and no other card: it is what
    [renderCryptoList] draws for those coins alone.  [renderSelected] is not
    called, so the selected panel and the compare button stay as they
    were. *)
Theorem unrenderable_coin_stops_refresh (good : list Coin) (bad : Coin)
    (rest : list Coin) (st : state) :
  Forall (λ c, renderable (userPrefs st) c = true) good →
  renderable (userPrefs st) bad = false →
  ∃ divs,
    renderCryptoList (good ++ bad :: rest) st
    = (Throw TypeError, with_cryptoContainer divs st)
    ∧ loadData_then (good ++ bad :: rest) st
      = (Throw TypeError, with_cryptoContainer divs st)
    ∧ step st (Response (good ++ bad :: rest)) = with_cryptoContainer divs st
    ∧ renderCryptoList good st = (Ok tt, with_cryptoContainer divs st)
    ∧ length divs = length good
    ∧ ∀ i coin, good !! i = Some coin →
        ∃ div, divs !! i = Some div
               ∧ crypto_card (userPrefs st) i coin = Ok div.
Proof.
  intros Hgood Hbad. exists (fst (crypto_cards (userPrefs st) 0 good)).
  destruct (crypto_cards_unrenderable (userPrefs st) good bad rest 0 Hgood Hbad)
    as [Hthrow Hcards].
  destruct (crypto_cards_renderable (userPrefs st) good 0 Hgood)
    as (Hok & Hlen & Hat).
  unfold step. cbn [handle]. rewrite spawn_snd.
  rewrite loadData_then_eq, !renderCryptoList_eq, Hthrow, Hcards, Hok.
  split_and!; try done.
Qed.

(** X3. When every selected coin of the response is renderable,
    [renderSelected] completes: the panel holds one card for each coin of the
    response whose id is selected, in the order of the response (not the
    order of selection), and the compare button is disabled exactly when the
    number of selected identifiers is not five.  Nothing else changes. *)
Theorem renderSelected_cards (coins : list Coin) (st : state) :
  Forall (λ c, renderable (userPrefs st) c = true)
    (List.filter (λ c, includes (id c) (selectedCoins st)) coins) →
  ∃ divs,
    renderSelected coins st
    = (Ok tt,
       with_compareBtn_disabled (negb (length (selectedCoins st) =? 5)%nat)
         (with_selectedContainer divs st))
    ∧ Forall2 (λ coin div, selected_card (userPrefs st) coin = Ok div)
        (List.filter (λ c, includes (id c) (selectedCoins st)) coins) divs.
Proof.
  intros Hall.
  destruct (selected_cards_renderable (userPrefs st) _ Hall) as [Hok Hcards].
  eexists. split; [|exact Hcards].
  rewrite renderSelected_eq. cbv zeta. by rewrite Hok.
Qed.

(** X4. When a selected coin of the response is not renderable,
    [renderSelected] ends with a TypeError before it reaches the compare
    button: the panel is left with fewer cards than there are selected coins
    in the response, and the button keeps the state it had, whatever the
    number of selected identifiers. *)
Theorem unrenderable_selected_coin (coins : list Coin) (st : state) :
  Exists (λ c, renderable (userPrefs st) c = false)
    (List.filter (λ c, includes (id c) (selectedCoins st)) coins) →
  ∃ divs,
    renderSelected coins st = (Throw TypeError, with_selectedContainer divs st)
    ∧ (length divs
       < length (List.filter (λ c, includes (id c) (selectedCoins st)) coins))%nat
    ∧ compareBtn_disabled (snd (renderSelected coins st))
      = compareBtn_disabled st.
Proof.
  intros Hex.
  destruct (selected_cards_unrenderable (userPrefs st) _ Hex) as [Hthrow Hlt].
  eexists. rewrite renderSelected_eq. cbv zeta. rewrite Hthrow.
  split_and!; [done|exact Hlt|done].
Qed.

(** X5. Handling the same response twice gives the page that handling it
    once gives, whether the renderers complete or not: what is drawn depends
    on the response and the store, not on what was drawn before. *)
Theorem response_idempotent (coins : list Coin) (st : state) :
  step (step st (Response coins)) (Response coins) = step st (Response coins).
Proof.
  unfold step. cbn [handle]. rewrite !spawn_snd.
  rewrite (loadData_then_eq coins st).
  destruct (snd (crypto_cards (userPrefs st) 0 coins)) as [[]| |] eqn:Hc.
  - rewrite renderSelected_eq. cbv zeta.
    cbn [userPrefs selectedCoins with_cryptoContainer].
    destruct (snd (selected_cards _ _)) as [[]| |] eqn:Hs; cbn [snd];
      rewrite loadData_then_eq;
      cbn [userPrefs selectedCoins with_cryptoContainer with_selectedContainer
           with_compareBtn_disabled];
      rewrite Hc, renderSelected_eq; cbv zeta;
      cbn [userPrefs selectedCoins with_cryptoContainer with_selectedContainer
           with_compareBtn_disabled];
      rewrite Hs; reflexivity.
  - cbn [snd]. rewrite loadData_then_eq.
    cbn [userPrefs with_cryptoContainer]. rewrite Hc. reflexivity.
  - cbn [snd]. rewrite loadData_then_eq.
    cbn [userPrefs with_cryptoContainer]. rewrite Hc. reflexivity.
Qed.

End RenderingProperties.


Lemma renderCryptoList_cards_witness :
  let coins := map (λ i, listed i None) ["bitcoin"; "ethereum"; "tether"; "solana"] in
  ∃ divs,
    @renderCryptoList integer_host coins two_selected
    = (Ok tt, with_cryptoContainer divs two_selected)
    ∧ length divs = 4%nat
    ∧ className <$> divs !! 3%nat = Some "crypto-card row-0".
Proof.
  cbv zeta.
  destruct (@renderCryptoList_cards integer_host
              (map (λ i, listed i None) ["bitcoin"; "ethereum"; "tether"; "solana"])
              two_selected) as (divs & Hrender & Hlen & Hat).
  { repeat constructor. }
  exists divs. split_and!; [exact Hrender|exact Hlen|].
  destruct (Hat 3%nat (listed "solana" None) eq_refl) as (div & Hdiv & _ & Hclass & _).
  rewrite Hdiv. simpl. by rewrite Hclass.
Defined.

Lemma unrenderable_coin_stops_refresh_witness :
  ∃ divs,
    @step integer_host one_selected_showing
      (Response [listed "bitcoin" (Some 1); listed "ethereum" None;
                 listed "tether" (Some 2)])
    = with_cryptoContainer divs one_selected_showing
    ∧ length divs = 1%nat.
Proof.
  destruct (@unrenderable_coin_stops_refresh integer_host
              [listed "bitcoin" (Some 1)] (listed "ethereum" None)
              [listed "tether" (Some 2)] one_selected_showing)
    as (divs & _ & _ & Hstep & _ & Hlen & _).
  - repeat constructor.
  - reflexivity.
  - exists divs. split; [exact Hstep|exact Hlen].
Defined.

Lemma renderSelected_cards_witness :
  ∃ divs,
    @renderSelected integer_host
      [listed "ethereum" None; listed "tether" None; listed "bitcoin" (Some 3)]
      two_selected
    = (Ok tt,
       with_compareBtn_disabled true (with_selectedContainer divs two_selected))
    ∧ length divs = 2%nat.
Proof.
  destruct (@renderSelected_cards integer_host
              [listed "ethereum" None; listed "tether" None;
               listed "bitcoin" (Some 3)] two_selected)
    as (divs & Hrender & Hcards).
  - simpl. repeat constructor.
  - exists divs. split; [exact Hrender|].
    apply Forall2_length in Hcards. by rewrite <- Hcards.
Defined.

Lemma unrenderable_selected_coin_witness :
  ∃ divs,
    @renderSelected integer_host
      [listed "ethereum" (Some 1); listed "bitcoin" None] one_selected_showing
    = (Throw TypeError, with_selectedContainer divs one_selected_showing).
Proof.
  destruct (@unrenderable_selected_coin integer_host
              [listed "ethereum" (Some 1); listed "bitcoin" None]
              one_selected_showing) as (divs & Hrender & _).
  - simpl. apply Exists_cons_hd. reflexivity.
  - by exists divs.
Defined.

(** * The selection under the operations *)

Lemma is_id_ne (id other : string) :
  other ≠ id → is_id other (Str id) = false.
Proof. intros Hne. simpl. by apply String.eqb_neq. Qed.

Lemma includes_app (id : string) (l k : list value) :
  includes id (l ++ k) = includes id l || includes id k.
Proof. apply existsb_app. Qed.

Lemma includes_without_ne (id other : string) (l : list value) :
  other ≠ id → includes other (without id l) = includes other l.
Proof.
  intros Hne. induction l as [|c l IH]; [done|]. simpl.
  destruct (is_id id c) eqn:Hc; simpl; [|by rewrite IH].
  apply is_id_true in Hc as ->. by rewrite is_id_ne.
Qed.

Lemma without_idempotent (id : string) (l : list value) :
  without id (without id l) = without id l.
Proof.
  apply without_absent. intros Hin. apply elem_of_without in Hin as [_ Hne]. done.
Qed.

Lemma without_comm (a b : string) (l : list value) :
  without a (without b l) = without b (without a l).
Proof.
  induction l as [|c l IH]; [done|]. simpl.
  destruct (is_id b c) eqn:Hb, (is_id a c) eqn:Ha; simpl;
    rewrite ?Ha, ?Hb; simpl; by rewrite IH.
Qed.

(** X6. [toggleCoin] flips the membership of its identifier whenever that
    identifier is selected or fewer than five are: a selected one is gone
    afterwards, an absent one is present, and no notice is shown.  In every
    case, at capacity too, the membership of every other identifier stays as
    it was. *)
Theorem toggle_flips_membership (st : state) (id : string) :
  (includes id (selectedCoins st) = true ∨ (length (selectedCoins st) < 5)%nat →
   includes id (selectedCoins (exec (Toggle id) st))
   = negb (includes id (selectedCoins st))
   ∧ alerts (exec (Toggle id) st) = alerts st)
  ∧ (∀ other, other ≠ id →
       includes other (selectedCoins (exec (Toggle id) st))
       = includes other (selectedCoins st)).
Proof.
  rewrite selectedCoins_exec, alerts_exec. cbn [changed].
  rewrite selectedCoins_toggled, alerts_toggled. split.
  - intros Hroom. destruct (includes id (selectedCoins st)) eqn:Hin.
    + split; [apply includes_without|done].
    + destruct Hroom as [|Hlt]; [done|]. apply Nat.ltb_lt in Hlt as ->.
      split; [apply includes_snoc|done].
  - intros other Hne. destruct (includes id (selectedCoins st)).
    + by apply includes_without_ne.
    + destruct (_ <? _)%nat; [|done]. rewrite includes_app. simpl.
      rewrite (proj2 (String.eqb_neq id other)) by done.
      by rewrite !orb_false_r.
Qed.

Lemma toggle_flips_membership_witness :
  includes "bitcoin" (selectedCoins (exec (Toggle "bitcoin") two_selected)) = false
  ∧ includes "tether" (selectedCoins (exec (Toggle "tether") two_selected)) = true
  ∧ includes "bitcoin" (selectedCoins (exec (Toggle "cardano") five_selected))
    = true.
Proof.
  split_and!.
  - apply (proj1 (toggle_flips_membership two_selected "bitcoin")).
    left. reflexivity.
  - apply (proj1 (toggle_flips_membership two_selected "tether")).
    right. simpl. lia.
  - by rewrite (proj2 (toggle_flips_membership five_selected "cardano") "bitcoin").
Defined.

(** X7. [removeCoin] on the selection: removing twice is removing once, two
    removals commute, removing an identifier that is not selected changes
    nothing, and removing an identifier right after [toggleCoin] added it
    gives back the selection, order included. *)
Theorem remove_algebra (st : state) (a b : string) :
  selectedCoins (exec (Remove a) (exec (Remove a) st))
  = selectedCoins (exec (Remove a) st)
  ∧ selectedCoins (exec (Remove a) (exec (Remove b) st))
    = selectedCoins (exec (Remove b) (exec (Remove a) st))
  ∧ (includes a (selectedCoins st) = false →
     selectedCoins (exec (Remove a) st) = selectedCoins st)
  ∧ (includes a (selectedCoins st) = false →
     selectedCoins (exec (Remove a) (exec (Toggle a) st)) = selectedCoins st).
Proof.
  rewrite !selectedCoins_exec. cbn [changed selectedCoins with_selectedCoins].
  rewrite !selectedCoins_exec. cbn [changed selectedCoins with_selectedCoins].
  rewrite selectedCoins_toggled. split_and!.
  - apply without_idempotent.
  - apply without_comm.
  - intros Hin. by apply without_absent, includes_false.
  - intros Hin. rewrite Hin. destruct (_ <? _)%nat.
    + by apply without_snoc.
    + by apply without_absent, includes_false.
Qed.

Section SelectionInvariants.
Context `{Host}.

Lemma selectedCoins_step (st : state) (e : event) :
  selectedCoins (step st e)
  = match e with
    | User o => selectedCoins (changed o st)
    | _ => selectedCoins st
    end.
Proof.
  pose proof (step_same_store st e) as Hstep. destruct e as [o| | |coins].
  - unfold step. cbn [handle]. fold (exec o st). apply selectedCoins_exec.
  - by destruct Hstep as (-> & _).
  - by destruct Hstep as (-> & _).
  - by destruct Hstep as (-> & _).
Qed.

Lemma changed_length (o : operation) (st : state) :
  (length (selectedCoins (changed o st)) ≤ 5 `max` length (selectedCoins st))%nat.
Proof.
  destruct o as [id|id|b|tok]; cbn [changed selectedCoins with_selectedCoins with_userPrefs];
    [|pose proof (without_length id (selectedCoins st)); lia|lia..].
  rewrite selectedCoins_toggled. destruct (includes id _).
  - pose proof (without_length id (selectedCoins st)). lia.
  - destruct (_ <? _)%nat eqn:Hlt; [|lia].
    apply Nat.ltb_lt in Hlt. rewrite length_app. simpl. lia.
Qed.

(** X8. Whatever the page starts with and whatever happens on it (user
    operations, compare clicks, timer ticks, responses), the selection never
    grows beyond five identifiers, or beyond the number it started with when
    that was more; and a selection without duplicates never gets one. *)
Theorem selection_never_outgrows (events : list event) (st : state) :
  (length (selectedCoins (run events st)) ≤ 5 `max` length (selectedCoins st))%nat
  ∧ (NoDup (selectedCoins st) → NoDup (selectedCoins (run events st))).
Proof.
  revert st. unfold run.
  induction events as [|e events IH]; intros st; [split; [simpl; lia|done]|].
  cbn [fold_left]. destruct (IH (step st e)) as [Hlen Hnd].
  assert (Hstep :
    (length (selectedCoins (step st e)) ≤ 5 `max` length (selectedCoins st))%nat
    ∧ (NoDup (selectedCoins st) → NoDup (selectedCoins (step st e)))).
  { rewrite selectedCoins_step. destruct e as [o| | |coins]; [|split; [lia|done]..].
    split; [apply changed_length|apply changed_NoDup]. }
  destruct Hstep as [Hlen' Hnd']. split; [lia|]. intros Hst. by apply Hnd, Hnd'.
Qed.

(** X9. The selection only ever gains what the user toggled: every member
    after a sequence of events was a member before it, or is the identifier of
    a toggle in the sequence. *)
Theorem members_come_from_toggles (events : list event) (st : state)
    (x : value) :
  x ∈ selectedCoins (run events st) →
  x ∈ selectedCoins st ∨ ∃ id, x = Str id ∧ User (Toggle id) ∈ events.
Proof.
  revert st. unfold run.
  induction events as [|e events IH]; intros st Hx; [by left|].
  cbn [fold_left] in Hx. apply IH in Hx as [Hx|(id & -> & Hid)].
  - rewrite selectedCoins_step in Hx.
    destruct e as [[id|id|b|tok]| | |coins]; cbn [changed] in Hx;
      try (by left).
    + rewrite selectedCoins_toggled in Hx.
      destruct (includes id (selectedCoins st)).
      * left. by apply elem_of_without in Hx as [? _].
      * destruct (_ <? _)%nat; [|by left].
        apply elem_of_app in Hx as [Hx|Hx]; [by left|].
        apply list_elem_of_singleton in Hx as ->.
        right. exists id. split; [done|]. apply elem_of_cons. by left.
    + left. by apply elem_of_without in Hx as [? _].
  - right. exists id. split; [done|]. apply elem_of_cons. by right.
Qed.

End SelectionInvariants.

Lemma members_come_from_toggles_witness :
  Str "tether" ∈ selectedCoins two_selected
  ∨ ∃ id, Str "tether" = Str id
          ∧ @User integer_host (Toggle id)
            ∈ [User (Remove "bitcoin"); User (Toggle "tether"); Tick].
Proof.
  apply (@members_come_from_toggles integer_host
           [User (Remove "bitcoin"); User (Toggle "tether"); Tick] two_selected).
  vm_compute. apply elem_of_cons. right. apply elem_of_cons. by left.
Defined.

(** * The preferences under their setters *)

Lemma set_prop_absent (k : string) (v : value) (o : list (string * value)) :
  get_prop k o = None → set_prop k v o = o ++ [(k, v)].
Proof.
  induction o as [|[k0 v0] o IH]; [done|]. simpl.
  destruct (String.eqb k0 k); [done|]. intros Hk. by rewrite IH.
Qed.

Lemma set_prop_twice (k : string) (v v' : value) (o : list (string * value)) :
  set_prop k v' (set_prop k v o) = set_prop k v' o.
Proof.
  induction o as [|[k0 v0] o IH]; simpl.
  - by rewrite String.eqb_refl.
  - destruct (String.eqb k0 k) eqn:E; simpl.
    + by rewrite String.eqb_refl.
    + by rewrite E, IH.
Qed.

Lemma set_prop_comm (k k' : string) (v v' : value) (o : list (string * value)) :
  k ≠ k' →
  get_prop k o ≠ None ∨ get_prop k' o ≠ None →
  set_prop k v (set_prop k' v' o) = set_prop k' v' (set_prop k v o).
Proof.
  intros Hne. induction o as [|[k0 v0] o IH]; [by intros [|]|].
  simpl. destruct (String.eqb k0 k') eqn:E', (String.eqb k0 k) eqn:E; simpl.
  - apply String.eqb_eq in E, E'. congruence.
  - intros _. apply String.eqb_eq in E' as ->.
    rewrite (proj2 (String.eqb_neq k' k)) by done. simpl.
    by rewrite String.eqb_refl.
  - intros _. apply String.eqb_eq in E as ->.
    rewrite String.eqb_refl. simpl.
    by rewrite (proj2 (String.eqb_neq k k')) by done.
  - intros Hor. rewrite E, E'. by rewrite IH.
Qed.

Lemma set_prop_not_comm (k k' : string) (v v' : value)
    (o : list (string * value)) :
  k ≠ k' → get_prop k o = None → get_prop k' o = None →
  set_prop k v (set_prop k' v' o) ≠ set_prop k' v' (set_prop k v o).
Proof.
  intros Hne Hk Hk'.
  rewrite (set_prop_absent k' v' o Hk'), (set_prop_absent k v o Hk).
  rewrite (set_prop_absent k v), (set_prop_absent k' v').
  - rewrite <- !app_assoc. intros Heq%app_inv_head. simplify_eq.
  - rewrite <- Hk'. clear -Hne. induction o as [|[k0 v0] o IH]; simpl.
    + by rewrite (proj2 (String.eqb_neq k k')).
    + by destruct (String.eqb k0 k').
  - rewrite <- Hk. clear -Hne. induction o as [|[k0 v0] o IH]; simpl.
    + by rewrite (proj2 (String.eqb_neq k' k)).
    + by destruct (String.eqb k0 k).
Qed.

(** X10. The two listeners of the preferences write the field they are for
    and nothing else: the field reads back as what was chosen, every other
    field of the record reads as before, and the selection is not touched. *)
Theorem setters_read_back (st : state) (checked : bool) (chosen : string) :
  get_prop "show24h" (userPrefs (exec (SetShow24h checked) st))
  = Some (Bool checked)
  ∧ (∀ k, k ≠ "show24h" →
       get_prop k (userPrefs (exec (SetShow24h checked) st))
       = get_prop k (userPrefs st))
  ∧ get_prop "sortOrder" (userPrefs (exec (SetSortOrder chosen) st))
    = Some (Str chosen)
  ∧ (∀ k, k ≠ "sortOrder" →
       get_prop k (userPrefs (exec (SetSortOrder chosen) st))
       = get_prop k (userPrefs st))
  ∧ selectedCoins (exec (SetShow24h checked) st) = selectedCoins st
  ∧ selectedCoins (exec (SetSortOrder chosen) st) = selectedCoins st.
Proof.
  rewrite !userPrefs_exec, !selectedCoins_exec.
  cbn [changed userPrefs selectedCoins with_userPrefs].
  split_and!; try done.
  - apply get_set_prop.
  - intros k Hk. by apply get_set_prop_ne.
  - apply get_set_prop.
  - intros k Hk. by apply get_set_prop_ne.
Qed.

(** X11. How the setters compose on the record: of two changes of the same
    field the later one wins, as if the earlier had not been made; and
    changing the 24h flag and the sort order gives the same record in either
    order exactly when the record had at least one of the two fields before
    (with neither, each order creates the fields in its own order). *)
Theorem setters_compose (st : state) (b b' : bool) (tok tok' : string) :
  userPrefs (exec (SetShow24h b') (exec (SetShow24h b) st))
  = userPrefs (exec (SetShow24h b') st)
  ∧ userPrefs (exec (SetSortOrder tok') (exec (SetSortOrder tok) st))
    = userPrefs (exec (SetSortOrder tok') st)
  ∧ (userPrefs (exec (SetShow24h b) (exec (SetSortOrder tok) st))
     = userPrefs (exec (SetSortOrder tok) (exec (SetShow24h b) st))
     ↔ get_prop "show24h" (userPrefs st) ≠ None
       ∨ get_prop "sortOrder" (userPrefs st) ≠ None).
Proof.
  rewrite !userPrefs_exec. cbn [changed userPrefs with_userPrefs].
  rewrite !userPrefs_exec. cbn [changed userPrefs with_userPrefs].
  split_and!; [apply set_prop_twice..|]. split.
  - intros Heq.
    destruct (get_prop "show24h" (userPrefs st)) eqn:H24; [by left|].
    destruct (get_prop "sortOrder" (userPrefs st)) eqn:Hso; [by right|].
    by apply set_prop_not_comm in Heq.
  - by apply set_prop_comm.
Qed.

(** * Storage *)

Lemma localStorage_changed_same (o : operation) (st : state) :
  localStorage (changed o st) = localStorage st.
Proof.
  destruct o as [id|id|b|tok]; try done. simpl. unfold toggled.
  by repeat match goal with |- context [if ?c then _ else _] => destruct c end.
Qed.


Section PageInvariants.
Context `{Host}.

Lemma localStorage_step (st : state) (e : event) :
  localStorage (step st e)
  = match e with
    | User o => persisted (changed o st)
    | _ => localStorage st
    end.
Proof.
  pose proof (step_same_store st e) as Hstep. destruct e as [o| | |coins].
  - unfold step. cbn [handle]. fold (exec o st). apply localStorage_changed.
  - by destruct Hstep as (_ & _ & ->).
  - by destruct Hstep as (_ & _ & -> & _).
  - by destruct Hstep as (_ & _ & -> & _).
Qed.


(** X12. The script owns two keys of the storage and no other: whatever
    happens on the page, every other key keeps its content, and no key is
    ever removed. *)
Theorem other_keys_untouched (events : list event) (st : state) :
  (∀ k, k ≠ "selectedCoins" → k ≠ "userPrefs" →
     localStorage (run events st) !! k = localStorage st !! k)
  ∧ (∀ k, is_Some (localStorage st !! k) →
       is_Some (localStorage (run events st) !! k)).
Proof.
  revert st. unfold run.
  induction events as [|e events IH]; intros st; [done|].
  cbn [fold_left]. destruct (IH (step st e)) as [Hframe Hkeep].
  assert (Hstep :
    (∀ k, k ≠ "selectedCoins" → k ≠ "userPrefs" →
       localStorage (step st e) !! k = localStorage st !! k)
    ∧ (∀ k, is_Some (localStorage st !! k) →
         is_Some (localStorage (step st e) !! k))).
  { rewrite localStorage_step. destruct e as [o| | |coins]; [|done..].
    unfold persisted. rewrite localStorage_changed_same. split.
    - intros k Hsel Hprefs. by rewrite !lookup_insert_ne.
    - intros k Hk.
      destruct (decide (k = "userPrefs")) as [->|?];
        [by rewrite lookup_insert_eq|rewrite lookup_insert_ne by done].
      destruct (decide (k = "selectedCoins")) as [->|?];
        [by rewrite lookup_insert_eq|by rewrite lookup_insert_ne]. }
  destruct Hstep as [Hframe' Hkeep']. split.
  - intros k Hsel Hprefs. by rewrite Hframe, Hframe'.
  - intros k Hk. by apply Hkeep, Hkeep'.
Qed.






(** * Requests *)



End PageInvariants.



(** * The compare button *)

Lemma join_Str (sep : string) (ids : list string) :
  join sep (map Str ids) = Ok (String.concat sep ids).
Proof.
  induction ids as [|x [|y ids] IH]; [done..|].
  change (map Str (x :: y :: ids)) with (Str x :: Str y :: map Str ids).
  change (map Str (y :: ids)) with (Str y :: map Str ids) in IH.
  cbn [join ToString obind]. cbn [join ToString obind] in IH.
  rewrite IH. reflexivity.
Qed.

(** X15. The click listener of the compare button shows one alert, the
    word Comparing followed by the selected identifiers in the order of the
    selection, separated by a comma and a space, and changes nothing else. *)
Theorem compare_announces_selection (ids : list string) (st : state) :
  selectedCoins st = map Str ids →
  on_compare_click st
  = (Ok tt,
     with_alerts (alerts st ++ ["Comparing: " +:+ String.concat ", " ids]) st).
Proof.
  intros Hsel. unfold on_compare_click, mbind, M_bind, get, lift, alert, modify.
  by rewrite Hsel, join_Str.
Qed.

Lemma compare_announces_selection_witness :
  on_compare_click five_selected
  = (Ok tt,
     with_alerts
       ["Comparing: bitcoin, ethereum, tether, solana, dogecoin"] five_selected).
Proof. apply (compare_announces_selection five_ids five_selected). reflexivity. Defined.

Section CompareProperties.
Context `{Host}.

Lemma step_Compare (ids : list string) (st : state) :
  selectedCoins st = map Str ids →
  step st Compare
  = if compareBtn_disabled st then st
    else with_alerts (alerts st ++ ["Comparing: " +:+ String.concat ", " ids]) st.
Proof.
  intros Hsel. unfold step. cbn [handle]. unfold mbind, M_bind, get.
  destruct (compareBtn_disabled st); [done|].
  unfold on_compare_click, mbind, M_bind, get, lift, alert, modify.
  by rewrite Hsel, join_Str.
Qed.

(** X16. The last statement of [renderSelected] and the click listener
    together: once [renderSelected] has completed, a click on the compare button announces the selection when
    it has exactly five identifiers, and does nothing at all otherwise, the
    button being disabled. *)
Theorem compare_after_render (coins : list Coin) (st st' : state)
    (ids : list string) :
  renderSelected coins st = (Ok tt, st') →
  selectedCoins st = map Str ids →
  step st' Compare
  = if (length ids =? 5)%nat
    then with_alerts (alerts st ++ ["Comparing: " +:+ String.concat ", " ids]) st'
    else st'.
Proof.
  intros Hrender Hsel. rewrite renderSelected_eq in Hrender. cbv zeta in Hrender.
  destruct (snd (selected_cards _ _)) as [[]| |]; [|done..].
  injection Hrender as <-. rewrite (step_Compare ids) by done.
  cbn [compareBtn_disabled with_compareBtn_disabled alerts with_selectedContainer].
  rewrite Hsel, length_map. by destruct (length ids =? 5)%nat.
Qed.

(** X17. The operations draw nothing themselves: the two containers and the
    compare button are as they were until a response is handled.  So a click
    on an enabled compare button right after an operation announces the
    selection as the operation left it, whatever number of identifiers the
    button was enabled for. *)
Theorem operations_do_not_render (o : operation) (st : state) :
  cryptoContainer (exec o st) = cryptoContainer st
  ∧ selectedContainer (exec o st) = selectedContainer st
  ∧ compareBtn_disabled (exec o st) = compareBtn_disabled st
  ∧ ∀ ids, compareBtn_disabled st = false →
      selectedCoins (exec o st) = map Str ids →
      alerts (run [User o; Compare] st)
      = alerts (exec o st) ++ ["Comparing: " +:+ String.concat ", " ids].
Proof.
  assert (Hdom : cryptoContainer (exec o st) = cryptoContainer st
                 ∧ selectedContainer (exec o st) = selectedContainer st
                 ∧ compareBtn_disabled (exec o st) = compareBtn_disabled st).
  { unfold exec. destruct (perform_eq o st) as [r ->].
    cbn [snd cryptoContainer selectedContainer compareBtn_disabled
         with_requests with_localStorage].
    destruct o as [id|id|b|tok]; try done. cbn [changed]. unfold toggled.
    by repeat match goal with |- context [if ?c then _ else _] => destruct c end. }
  destruct Hdom as (Hcrypto & Hselected & Hbtn). split_and!; [done..|].
  intros ids Henabled Hsel. unfold run. cbn [fold_left].
  change (step st (User o)) with (exec o st).
  rewrite (step_Compare ids) by done. by rewrite Hbtn, Henabled.
Qed.

End CompareProperties.

Lemma compare_after_render_witness :
  ∃ st',
    @renderSelected integer_host [listed "bitcoin" (Some 0)] five_selected_showing
    = (Ok tt, st')
    ∧ @step integer_host st' Compare
      = with_alerts ["Comparing: bitcoin, ethereum, tether, solana, dogecoin"] st'.
Proof.
  eexists. split; [vm_compute; reflexivity|].
  apply (@compare_after_render integer_host [listed "bitcoin" (Some 0)]
           five_selected_showing _ five_ids); reflexivity.
Defined.

(** * What the script keeps of the storage at start-up *)

(** X18. Of what is stored under a key, the [||] of the two declarations
    keeps a truthy value as it is and replaces a falsy one ([null], [false],
    [0], the empty string) by the default, the empty selection or the default
    preferences.  An empty array and an empty object are truthy: a stored
    record without fields is kept without fields. *)
Theorem stored_value_kept_or_replaced (ls : gmap string string)
    (sel : list value) (prefs : list (string * value)) :
  load ls = Ok (sel, prefs) →
  (∀ v, parse_item ls "selectedCoins" = Ok v →
     if ToBoolean v then v = Arr sel else sel = [])
  ∧ (∀ v, parse_item ls "userPrefs" = Ok v →
       if ToBoolean v then v = Obj prefs else prefs = default_prefs)
  ∧ (∀ v, ToBoolean v = false
          ↔ v = Null ∨ v = Bool false ∨ v = Num 0 ∨ v = Str "").
Proof.
  unfold load. intros Hload. split_and!.
  - intros v Hv. rewrite Hv in Hload. cbn [obind] in Hload.
    destruct (parse_item ls "userPrefs") as [up| |]; [|by destruct (ToBoolean v)..].
    cbn [obind] in Hload.
    destruct (ToBoolean v); [destruct v; try done|];
      cbn [obind] in Hload;
      destruct (if ToBoolean up then _ else _); by simplify_eq/=.
  - intros v Hv. rewrite Hv in Hload.
    destruct (parse_item ls "selectedCoins") as [sc| |]; [|done..].
    cbn [obind] in Hload.
    destruct (if ToBoolean sc then _ else _); [|done..]. cbn [obind] in Hload.
    destruct (ToBoolean v); [destruct v; try done|]; by simplify_eq/=.
  - intros v. split.
    + destruct v as [|[]|n|s| |]; simpl; try done; try tauto.
      * intros Hn%negb_false_iff%Z.eqb_eq. subst. tauto.
      * intros Hs%negb_false_iff%String.eqb_eq. subst. tauto.
    + by intros [->|[->|[->| ->]]].
Qed.

Lemma stored_value_kept_or_replaced_witness :
  let ls : gmap string string := {["selectedCoins" := "0"; "userPrefs" := "{}"]} in
  load ls = Ok ([], [])
  ∧ (if ToBoolean (Num 0) then Num 0 = Arr [] else @nil value = [])
  ∧ (if ToBoolean (Obj []) then Obj [] = Obj [] else [] = default_prefs).
Proof.
  cbv zeta.
  pose proof (stored_value_kept_or_replaced
                {["selectedCoins" := "0"; "userPrefs" := "{}"]} [] [] eq_refl)
    as (Hsel & Hprefs & _).
  split_and!; [reflexivity|apply Hsel; reflexivity|apply Hprefs; reflexivity].
Defined.

(** * Alerts *)

Section AlertProperties.
Context `{Host}.

Lemma alerts_step (st : state) (e : event) :
  ∃ new, alerts (step st e) = alerts st ++ new
         ∧ match e with
           | User (Toggle _) => new = [] ∨ new = [capacity_notice]
           | Compare => new = [] ∨ ∃ text, new = ["Comparing: " +:+ text]
           | _ => new = []
           end.
Proof.
  pose proof (step_same_store st e) as Hstep.
  destruct e as [[id|id|b|tok]| | |coins];
    try (exists []; rewrite app_nil_r; split; [|done]).
  - unfold step. cbn [handle]. fold (exec (Toggle id) st).
    rewrite alerts_exec. cbn [changed]. rewrite alerts_toggled.
    destruct (includes _ _); [exists []; rewrite app_nil_r; auto|].
    destruct (_ <? _)%nat; [exists []; rewrite app_nil_r; auto|].
    exists [capacity_notice]. auto.
  - unfold step. cbn [handle]. fold (exec (Remove id) st). by rewrite alerts_exec.
  - unfold step. cbn [handle]. fold (exec (SetShow24h b) st). by rewrite alerts_exec.
  - unfold step. cbn [handle]. fold (exec (SetSortOrder tok) st).
    by rewrite alerts_exec.
  - clear Hstep. unfold step. cbn [handle]. unfold on_compare_click.
    unfold mbind, M_bind, get, lift, alert, modify.
    destruct (compareBtn_disabled st); [exists []; rewrite app_nil_r; auto|].
    destruct (join ", " (selectedCoins st)) as [text| |];
      [|exists []; rewrite app_nil_r; auto..].
    exists ["Comparing: " +:+ text]. eauto.
  - by destruct Hstep as (_ & _ & _ & ->).
  - by destruct Hstep as (_ & _ & _ & ->).
Qed.

(** X19. The page shows an alert on two occasions only: the capacity
    notice, at most once per toggle, and the announcement of a comparison, at
    most once per click on the compare button.  Removals, changes of the
    preferences, timer ticks and responses show none, and no alert shown
    earlier is taken back. *)
Theorem alerts_only_notices (events : list event) (st : state) :
  ∃ new,
    alerts (run events st) = alerts st ++ new
    ∧ Forall (λ a, a = capacity_notice ∨ ∃ text, a = "Comparing: " +:+ text) new
    ∧ (length new
       ≤ length (List.filter
                   (λ e, match e with
                         | User (Toggle _) | Compare => true
                         | _ => false
                         end) events))%nat.
Proof.
  revert st. unfold run.
  induction events as [|e events IH]; intros st.
  { exists []. rewrite app_nil_r. split_and!; [done|constructor|simpl; lia]. }
  cbn [fold_left List.filter].
  destruct (IH (step st e)) as (new & -> & Hall & Hlen).
  destruct (alerts_step st e) as (new0 & -> & Hnew0).
  exists (new0 ++ new). rewrite <- app_assoc. split_and!; [done| |].
  - apply Forall_app. split; [|done].
    destruct e as [[id|id|b|tok]| | |coins]; try (subst; constructor).
    + destruct Hnew0 as [->| ->]; [constructor|]. by repeat constructor.
    + destruct Hnew0 as [->|[text ->]]; [constructor|].
      constructor; [right; by exists text|constructor].
  - rewrite length_app.
    destruct e as [[id|id|b|tok]| | |coins]; try (subst; simpl; lia).
    + destruct Hnew0 as [->| ->]; simpl; lia.
    + destruct Hnew0 as [->|[text ->]]; simpl; lia.
Qed.

End AlertProperties.

(** * Start-up, in full *)

(** X20. Running the script from top to bottom loads the two variables,
    gives the dropdown the sort order as a string, and calls [loadData] once.
    When that completes, the request for the sort order as printed is the one
    request sent, and nothing else has happened: nothing is written to the
    storage (defaults that stood in for absent content are not saved), no
    alert is shown, nothing is drawn and the compare button is as the page
    declares it, until a response is handled.  A stored sort order without a
    string form stops the script with a TypeError at the dropdown, before
    [loadData] is called. *)
Theorem startup_effects (ls : gmap string string)
    (crypto selected : list element) (disabled : bool) :
  (∀ st, startup ls crypto selected disabled = Ok st →
     load ls = Ok (selectedCoins st, userPrefs st)
     ∧ localStorage st = ls
     ∧ alerts st = []
     ∧ cryptoContainer st = crypto
     ∧ selectedContainer st = selected
     ∧ compareBtn_disabled st = disabled
     ∧ (∃ order, template_value (get_prop "sortOrder" (userPrefs st)) = Ok order
                 ∧ requests st = [request_for order])
     ∧ (∀ tok, get_prop "sortOrder" (userPrefs st) = Some (Str tok) →
          requests st = [request_for tok])
     ∧ (get_prop "sortOrder" (userPrefs st) = None →
          requests st = [request_for "undefined"]))
  ∧ (∀ sel prefs e, load ls = Ok (sel, prefs) →
       template_value (get_prop "sortOrder" prefs) = Throw e →
       startup ls crypto selected disabled = Throw e).
Proof.
  split.
  - intros st (sel & prefs & order & Hload & Horder & ->)%startup_Ok.
    cbn [selectedCoins userPrefs localStorage alerts cryptoContainer
         selectedContainer compareBtn_disabled requests].
    split_and!; try done.
    + by exists order.
    + intros tok Htok. rewrite Htok in Horder. by simplify_eq/=.
    + intros Hnone. rewrite Hnone in Horder. by simplify_eq/=.
  - intros sel prefs e Hload He. unfold startup. rewrite Hload.
    cbn [obind fst snd]. by rewrite He.
Qed.

Lemma startup_effects_witness :
  (∃ st, startup partial_storage [] [] true = Ok st
         ∧ localStorage st = partial_storage
         ∧ requests st = [request_for "undefined"])
  ∧ startup {["userPrefs" := stringify (Obj [("sortOrder", Obj [("toString", Num 1)])])]}
      [] [] true
    = Throw TypeError.
Proof.
  split.
  - eexists. split; [vm_compute; reflexivity|].
    split; [reflexivity|].
    refine (proj2 (proj2 (proj2 (proj2 (proj2 (proj2 (proj2 (proj2
              (proj1 (startup_effects partial_storage [] [] true) _ _))))))))
            _).
    + vm_compute; reflexivity.
    + reflexivity.
  - eapply (proj2 (startup_effects _ [] [] true)).
    + vm_compute; reflexivity.
    + reflexivity.
Defined.
